(** * musicgen: voice activity detection and music ducking

  A shallow embedding of the two classes that carry the detection and
  ducking logic of the application:

  - [VoiceProcessor] (the voice processor module): [calculateAudioEnergy],
    [updateEnergyHistory], [getAverageEnergy], [processVAD],
    [setVADEnabled];
  - [AudioSystem] (src/services/audioSystem.js): [playTrack],
    [playDemoTrack], [onSpeechDetected], [onSpeechEnded], [fadeVolume],
    [fadeGain];
  - [Renderer]: the two listeners that connect the detector's events to
    the audio system;
  - [Playback] (src/services/audioSystem.js): [adjustVolume],
    [stopMusic], [findAndPlayTrack], [fallbackInterpretation],
    [startBackgroundMusic], [executeCommand];
  - [Session]: the detector, the audio system and the indicator as one
    application.

  [Spec] collects the vocabulary of the statements and [Scenario] the
  concrete inputs; the lemmas and theorems follow.

  JavaScript numbers that carry energies, volumes and gains are IEEE 754
  binary64 values and are modelled by Rocq's primitive floats, which are
  the same format with the same rounding.  Timestamps ([Date.now()]) are
  integral numbers of milliseconds and are modelled in [Z]; the clock is
  an explicit argument of every operation that reads it. *)

From Stdlib Require Import ZArith List Bool Floats Uint63 String Ascii Lia.
From stdpp Require Import base list strings gmap.
Import ListNotations.

#[local] Set Warnings "-inexact-float".
#[local] Open Scope Z_scope.

(** ** JavaScript numbers *)

Module JS.

(** [Math.max(a, b)]: NaN if either argument is NaN, and [+0] is larger
    than [-0]. *)
Definition Math_max (a b : float) : float :=
  if (PrimFloat.is_nan a || PrimFloat.is_nan b)%bool then PrimFloat.nan
  else if PrimFloat.ltb a b then b
  else if PrimFloat.ltb b a then a
  else if PrimFloat.get_sign a then b else a.

(** [Math.min(a, b)]: NaN if either argument is NaN, and [-0] is smaller
    than [+0]. *)
Definition Math_min (a b : float) : float :=
  if (PrimFloat.is_nan a || PrimFloat.is_nan b)%bool then PrimFloat.nan
  else if PrimFloat.ltb a b then a
  else if PrimFloat.ltb b a then b
  else if PrimFloat.get_sign a then a else b.

(** [a > b] on numbers. *)
Definition gt (a b : float) : bool := PrimFloat.ltb b a.

(** The [length] of an array, as a number. *)
Definition length_num {A} (l : list A) : float :=
  PrimFloat.of_uint63 (Uint63.of_Z (Z.of_nat (List.length l))).

(** Truthiness of a field that holds [null] or a timestamp: [null] and
    [0] are falsy. *)
Definition truthy (t : option Z) : bool :=
  match t with
  | None => false
  | Some v => negb (v =? 0)
  end.

(** [ToNumber] of such a field: [null] converts to [0]. *)
Definition to_number (t : option Z) : Z :=
  match t with
  | None => 0
  | Some v => v
  end.

End JS.

(** ** The voice processor *)

Module VoiceProcessor.

Inductive event : Set :=
| speechStart
| speechEnd.

(** The fields of the class that voice activity detection reads or
    writes. *)
Record state : Type := mkState {
  vadEnabled : bool;
  vadThreshold : float;
  vadSmoothingFactor : float;
  vadMinSpeechDuration : Z;
  vadSilenceTimeout : Z;
  currentEnergy : float;
  speechStartTime : option Z;
  lastSpeechTime : option Z;
  isSpeechActive : bool;
  energyHistory : list float;
  maxHistoryLength : nat
}.

(** The constructor. *)
Definition init : state := {|
  vadEnabled := true;
  vadThreshold := 0.01;
  vadSmoothingFactor := 0.8;
  vadMinSpeechDuration := 300;
  vadSilenceTimeout := 1000;
  currentEnergy := 0;
  speechStartTime := None;
  lastSpeechTime := None;
  isSpeechActive := false;
  energyHistory := [];
  maxHistoryLength := 10
|}.

Definition set_vadEnabled (b : bool) (s : state) : state :=
  mkState b (vadThreshold s) (vadSmoothingFactor s) (vadMinSpeechDuration s)
    (vadSilenceTimeout s) (currentEnergy s) (speechStartTime s)
    (lastSpeechTime s) (isSpeechActive s) (energyHistory s)
    (maxHistoryLength s).

Definition set_vadThreshold (t : float) (s : state) : state :=
  mkState (vadEnabled s) t (vadSmoothingFactor s) (vadMinSpeechDuration s)
    (vadSilenceTimeout s) (currentEnergy s) (speechStartTime s)
    (lastSpeechTime s) (isSpeechActive s) (energyHistory s)
    (maxHistoryLength s).

Definition set_currentEnergy (e : float) (s : state) : state :=
  mkState (vadEnabled s) (vadThreshold s) (vadSmoothingFactor s)
    (vadMinSpeechDuration s) (vadSilenceTimeout s) e (speechStartTime s)
    (lastSpeechTime s) (isSpeechActive s) (energyHistory s)
    (maxHistoryLength s).

Definition set_speechStartTime (t : option Z) (s : state) : state :=
  mkState (vadEnabled s) (vadThreshold s) (vadSmoothingFactor s)
    (vadMinSpeechDuration s) (vadSilenceTimeout s) (currentEnergy s) t
    (lastSpeechTime s) (isSpeechActive s) (energyHistory s)
    (maxHistoryLength s).

Definition set_lastSpeechTime (t : option Z) (s : state) : state :=
  mkState (vadEnabled s) (vadThreshold s) (vadSmoothingFactor s)
    (vadMinSpeechDuration s) (vadSilenceTimeout s) (currentEnergy s)
    (speechStartTime s) t (isSpeechActive s) (energyHistory s)
    (maxHistoryLength s).

Definition set_isSpeechActive (b : bool) (s : state) : state :=
  mkState (vadEnabled s) (vadThreshold s) (vadSmoothingFactor s)
    (vadMinSpeechDuration s) (vadSilenceTimeout s) (currentEnergy s)
    (speechStartTime s) (lastSpeechTime s) b (energyHistory s)
    (maxHistoryLength s).

Definition set_energyHistory (h : list float) (s : state) : state :=
  mkState (vadEnabled s) (vadThreshold s) (vadSmoothingFactor s)
    (vadMinSpeechDuration s) (vadSilenceTimeout s) (currentEnergy s)
    (speechStartTime s) (lastSpeechTime s) (isSpeechActive s) h
    (maxHistoryLength s).

(** [calculateAudioEnergy(audioData)]: the loop accumulates the squares
    from the left, starting at [0]; the quotient by the length is taken
    without a test on the length. *)
Definition calculateAudioEnergy (audioData : list float) : float :=
  let sum := fold_left (fun sum x => sum + x * x)%float audioData 0%float in
  PrimFloat.sqrt (sum / JS.length_num audioData).

(** [updateEnergyHistory(energy)]: [push], then one [shift] when the
    array has grown past [maxHistoryLength]. *)
Definition updateEnergyHistory (energy : float) (s : state) : state :=
  let pushed := energyHistory s ++ [energy] in
  if (maxHistoryLength s <? List.length pushed)%nat
  then set_energyHistory (tail pushed) s
  else set_energyHistory pushed s.

(** [getAverageEnergy()]. *)
Definition getAverageEnergy (s : state) : float :=
  match energyHistory s with
  | [] => 0%float
  | _ =>
      let sum := fold_left (fun a b => a + b)%float (energyHistory s) 0%float in
      (sum / JS.length_num (energyHistory s))%float
  end.

(** The first half of [processVAD]: smoothing and the history update. *)
Definition smoothEnergy (audioData : list float) (s : state) : state :=
  let instantEnergy := calculateAudioEnergy audioData in
  let s1 :=
    set_currentEnergy
      (vadSmoothingFactor s * currentEnergy s
       + (1 - vadSmoothingFactor s) * instantEnergy)%float s in
  updateEnergyHistory (currentEnergy s1) s1.

(** [adaptiveThreshold], read in the state after smoothing. *)
Definition adaptiveThreshold (s : state) : float :=
  let avgEnergy := getAverageEnergy s in
  JS.Math_max (vadThreshold s) (avgEnergy * 1.5)%float.

(** [isSpeechDetected], read in the state after smoothing. *)
Definition isSpeechDetected (s : state) : bool :=
  JS.gt (currentEnergy s) (adaptiveThreshold s).

(** The branch of [processVAD] taken when speech is detected. *)
Definition onDetected (currentTime : Z) (s : state)
  : state * list event :=
  let s1 :=
    if negb (JS.truthy (speechStartTime s))
    then set_speechStartTime (Some currentTime) s
    else s in
  let s2 := set_lastSpeechTime (Some currentTime) s1 in
  let speechDuration := currentTime - JS.to_number (speechStartTime s2) in
  if ((vadMinSpeechDuration s2 <=? speechDuration)
      && negb (isSpeechActive s2))%bool
  then (set_isSpeechActive true s2, [speechStart])
  else (s2, []).

(** The branch of [processVAD] taken when no speech is detected. *)
Definition onQuiet (currentTime : Z) (s : state) : state * list event :=
  if (isSpeechActive s && JS.truthy (lastSpeechTime s))%bool
  then
    let silenceDuration := currentTime - JS.to_number (lastSpeechTime s) in
    if vadSilenceTimeout s <=? silenceDuration
    then (set_speechStartTime None (set_isSpeechActive false s), [speechEnd])
    else (s, [])
  else (s, []).

(** [processVAD(audioData)], with the reading of [Date.now()] as the
    argument [currentTime].  The result is the new state, the events
    emitted, in order, and the returned value. *)
Definition processVAD (audioData : list float) (currentTime : Z)
    (s : state) : state * list event * bool :=
  if negb (vadEnabled s) then (s, [], false)
  else
    let s1 := smoothEnergy audioData s in
    let '(s2, evs) :=
      if isSpeechDetected s1
      then onDetected currentTime s1
      else onQuiet currentTime s1 in
    (s2, evs, isSpeechActive s2).

(** [setVADEnabled(enabled)]. *)
Definition setVADEnabled (enabled : bool) (s : state)
  : state * list event :=
  let s1 := set_vadEnabled enabled s in
  if (negb enabled && isSpeechActive s1)%bool
  then (set_speechStartTime None (set_isSpeechActive false s1), [speechEnd])
  else (s1, []).

(** [setVADThreshold(threshold)]. *)
Definition setVADThreshold (threshold : float) (s : state) : state :=
  set_vadThreshold (JS.Math_max 0.001 (JS.Math_min 0.1 threshold)) s.

(** *** Runs of calls *)

(** The calls that change the detector after construction. *)
Inductive call : Type :=
| Frame (audioData : list float) (currentTime : Z)
| SetVADEnabled (enabled : bool)
| SetVADThreshold (threshold : float).

Definition step (s : state) (c : call) : state * list event :=
  match c with
  | Frame audioData currentTime => fst (processVAD audioData currentTime s)
  | SetVADEnabled enabled => setVADEnabled enabled s
  | SetVADThreshold threshold => (setVADThreshold threshold s, [])
  end.

(** The state after a sequence of calls and the events emitted on the
    way. *)
Fixpoint run (s : state) (cs : list call) : state * list event :=
  match cs with
  | [] => (s, [])
  | c :: cs' =>
      let '(s1, evs1) := step s c in
      let '(s2, evs2) := run s1 cs' in
      (s2, evs1 ++ evs2)
  end.

End VoiceProcessor.

(** ** The audio system *)

Module AudioSystem.

(** An [Audio] element, as far as the class uses it. *)
Record AudioElement : Type := mkAudio {
  src : string;
  loop : bool;
  el_volume : float;
  paused : bool
}.

(** What is scheduled on the [gain] parameter of a gain node. *)
Inductive automation : Type :=
| SetValueAtTime (value startTime : float)
| LinearRampToValueAtTime (value endTime : float).

(** The object stored in [demoAudio]: an oscillator connected to a gain
    node.  [gain_value] is what a read of [gainNode.gain.value] gives;
    the rendering of scheduled automation by the audio thread is outside
    the class and is not modelled, and neither is the rounding of the
    parameter to single precision. *)
Record DemoAudio : Type := mkDemo {
  frequency : float;
  started : bool;
  gain_value : float;
  gain_events : list automation
}.

(** The closure of one [setInterval] registration made by [fadeVolume]:
    the element it writes to and the local variables of the call. *)
Record Interval : Type := mkInterval {
  iv_element : nat;
  iv_startVolume : float;
  iv_volumeDiff : float;
  iv_targetVolume : float;
  iv_currentStep : nat;
  iv_stepTime : float
}.

(** The fields of the class that playback and ducking read or write,
    followed by the objects they refer to.  [currentAudio] and
    [demoAudio] hold references (positions in [elements] and [demos]),
    so an element that was replaced is still there for the timers that
    captured it.  A cleared registration stays in [intervals] as
    [None]. *)
Record state : Type := mkState {
  volume : float;
  currentAudio : option nat;
  demoAudio : option nat;
  isVADMuted : bool;
  originalVolume : option float;
  originalGain : option float;
  vadDuckingFactor : float;
  vadFadeTime : float;
  elements : list AudioElement;
  demos : list DemoAudio;
  intervals : list (option Interval)
}.

(** The constructor. *)
Definition init : state := {|
  volume := 0.5;
  currentAudio := None;
  demoAudio := None;
  isVADMuted := false;
  originalVolume := None;
  originalGain := None;
  vadDuckingFactor := 0.2;
  vadFadeTime := 100;
  elements := [];
  demos := [];
  intervals := []
|}.

Definition set_currentAudio (a : option nat) (s : state) : state :=
  mkState (volume s) a (demoAudio s) (isVADMuted s) (originalVolume s)
    (originalGain s) (vadDuckingFactor s) (vadFadeTime s) (elements s)
    (demos s) (intervals s).

Definition set_demoAudio (d : option nat) (s : state) : state :=
  mkState (volume s) (currentAudio s) d (isVADMuted s) (originalVolume s)
    (originalGain s) (vadDuckingFactor s) (vadFadeTime s) (elements s)
    (demos s) (intervals s).

Definition set_isVADMuted (b : bool) (s : state) : state :=
  mkState (volume s) (currentAudio s) (demoAudio s) b (originalVolume s)
    (originalGain s) (vadDuckingFactor s) (vadFadeTime s) (elements s)
    (demos s) (intervals s).

Definition set_originalVolume (v : option float) (s : state) : state :=
  mkState (volume s) (currentAudio s) (demoAudio s) (isVADMuted s) v
    (originalGain s) (vadDuckingFactor s) (vadFadeTime s) (elements s)
    (demos s) (intervals s).

Definition set_originalGain (g : option float) (s : state) : state :=
  mkState (volume s) (currentAudio s) (demoAudio s) (isVADMuted s)
    (originalVolume s) g (vadDuckingFactor s) (vadFadeTime s) (elements s)
    (demos s) (intervals s).

Definition set_elements (els : list AudioElement) (s : state) : state :=
  mkState (volume s) (currentAudio s) (demoAudio s) (isVADMuted s)
    (originalVolume s) (originalGain s) (vadDuckingFactor s) (vadFadeTime s)
    els (demos s) (intervals s).

Definition set_demos (ds : list DemoAudio) (s : state) : state :=
  mkState (volume s) (currentAudio s) (demoAudio s) (isVADMuted s)
    (originalVolume s) (originalGain s) (vadDuckingFactor s) (vadFadeTime s)
    (elements s) ds (intervals s).

Definition set_intervals (ivs : list (option Interval)) (s : state)
  : state :=
  mkState (volume s) (currentAudio s) (demoAudio s) (isVADMuted s)
    (originalVolume s) (originalGain s) (vadDuckingFactor s) (vadFadeTime s)
    (elements s) (demos s) ivs.

(** *** Writes to the objects *)

Definition with_volume (v : float) (el : AudioElement) : AudioElement :=
  mkAudio (src el) (loop el) v (paused el).

Definition with_paused (p : bool) (el : AudioElement) : AudioElement :=
  mkAudio (src el) (loop el) (el_volume el) p.

(** [audioElement.volume = v] on the element at reference [a]. *)
Definition write_volume (a : nat) (v : float) (s : state) : state :=
  set_elements (alter (with_volume v) a (elements s)) s.

(** [audioElement.pause()]. *)
Definition pause (a : nat) (s : state) : state :=
  set_elements (alter (with_paused true) a (elements s)) s.

(** The volume of the element at reference [a]. *)
Definition volume_of (a : nat) (s : state) : option float :=
  el_volume <$> elements s !! a.

(** The value of the gain of the demo audio at reference [d]. *)
Definition gain_of (d : nat) (s : state) : option float :=
  gain_value <$> demos s !! d.

(** *** Playback *)

(** The [previews] object of a search result; an absent preview is
    [None]. *)
Record Previews : Type := mkPreviews {
  preview_hq_mp3 : option string;
  preview_lq_mp3 : option string
}.

(** A search result, as far as [playTrack] reads it.  [previews] is
    [None] for a result that has no such object. *)
Record track : Type := mkTrack {
  name : string;
  previews : option Previews
}.

(** Truthiness of a value that is [undefined] or a string. *)
Definition truthy_url (u : option string) : bool :=
  match u with
  | None => false
  | Some str => negb (String.eqb str EmptyString)
  end.

(** The preview that [playTrack] chooses: the high quality one unless
    it is falsy.  No preview can be read from a result without
    [previews]. *)
Definition audioUrl (t : track) : option string :=
  match previews t with
  | Some p =>
      if truthy_url (preview_hq_mp3 p) then preview_hq_mp3 p
      else preview_lq_mp3 p
  | None => None
  end.

(** Whether [playTrack(track)] ends with an exception: reading a
    preview of a result without [previews] raises a [TypeError]. *)
Definition playTrack_throws (t : track) : bool :=
  match previews t with
  | Some _ => false
  | None => true
  end.

(** [playTrack(track)]: the state when the call ends, be it normally or
    with the exception of [playTrack_throws], which is raised after the
    element that was playing has been paused and dropped.  [played]
    tells whether the promise of [play()] was fulfilled; the element
    stays paused when it was rejected. *)
Definition playTrack (t : track) (played : bool) (s : state) : state :=
  let s1 :=
    match currentAudio s with
    | Some a => set_currentAudio None (pause a s)
    | None => s
    end in
  match audioUrl t with
  | Some url =>
      if truthy_url (Some url)
      then
        let el := mkAudio url true (volume s1) (negb played) in
        set_currentAudio (Some (List.length (elements s1)))
          (set_elements (elements s1 ++ [el]) s1)
      else s1
  | None => s1
  end.

(** The table [frequencies] of [playDemoTrack], with its default, for
    a style that is not the name of a property that every object
    inherits ([constructor], [toString], ...): for such a name the
    lookup finds the inherited property instead of the default. *)
Definition frequencies (style : string) : float :=
  if String.eqb style "ambient" then 220
  else if String.eqb style "piano" then 261.63
  else if String.eqb style "nature" then 110
  else if String.eqb style "focus" then 40
  else if String.eqb style "electronic" then 440
  else 220.

(** [playDemoTrack(style)]: a new oscillator and gain node are stored in
    [demoAudio]; what was stored there before is not stopped. *)
Definition playDemoTrack (style : string) (s : state) : state :=
  let d := mkDemo (frequencies style) true (volume s * 0.1)%float [] in
  set_demoAudio (Some (List.length (demos s)))
    (set_demos (demos s ++ [d]) s).

(** *** Fades *)

(** The number of steps of a fade. *)
Definition steps : nat := 20.

Definition num_of_nat (n : nat) : float :=
  PrimFloat.of_uint63 (Uint63.of_Z (Z.of_nat n)).

(** [fadeVolume(audioElement, targetVolume, duration)], for an element
    reference that is not null: the locals are computed and the timer is
    registered; nothing is written to the element before the timer
    fires.  A reference always points into [elements]; the [None] branch
    is there for totality. *)
Definition fadeVolume (a : nat) (targetVolume duration : float)
    (s : state) : state :=
  match volume_of a s with
  | Some startVolume =>
      let volumeDiff := (targetVolume - startVolume)%float in
      let stepTime := (duration / num_of_nat steps)%float in
      set_intervals
        (intervals s ++
         [Some (mkInterval a startVolume volumeDiff targetVolume 0 stepTime)])
        s
  | None => s
  end.

(** One firing of the timer registered under [id]: the body of the
    callback passed to [setInterval].  A cleared timer does not fire. *)
Definition fire (id : nat) (s : state) : state :=
  match intervals s !! id with
  | Some (Some iv) =>
      let currentStep := S (iv_currentStep iv) in
      let progress := (num_of_nat currentStep / num_of_nat steps)%float in
      let s1 :=
        write_volume (iv_element iv)
          (iv_startVolume iv + iv_volumeDiff iv * progress)%float s in
      if (steps <=? currentStep)%nat
      then
        write_volume (iv_element iv) (iv_targetVolume iv)
          (set_intervals (<[id := None]> (intervals s1)) s1)
      else
        set_intervals
          (<[id :=
               Some (mkInterval (iv_element iv) (iv_startVolume iv)
                       (iv_volumeDiff iv) (iv_targetVolume iv) currentStep
                       (iv_stepTime iv))]> (intervals s1)) s1
  | _ => s
  end.

(** Firings of the timers named in [ids], in that order. *)
Definition fires (ids : list nat) (s : state) : state :=
  fold_left (fun acc id => fire id acc) ids s.

(** [fadeGain(gainNode, targetGain, duration)], for a gain node that is
    not null; [currentTime] is the reading of the clock of its audio
    context. *)
Definition fadeGain (d : nat) (targetGain duration currentTime : float)
    (s : state) : state :=
  match demos s !! d with
  | Some demo =>
      let endTime := (currentTime + duration / 1000)%float in
      let demo' :=
        mkDemo (frequency demo) (started demo) (gain_value demo)
          (gain_events demo ++
           [SetValueAtTime (gain_value demo) currentTime;
            LinearRampToValueAtTime targetGain endTime]) in
      set_demos (<[d := demo']> (demos s)) s
  | None => s
  end.

(** The value that an event scheduled on a parameter gives it. *)
Definition automation_value (e : automation) : float :=
  match e with
  | SetValueAtTime value _ => value
  | LinearRampToValueAtTime value _ => value
  end.

(** A gain whose schedule has run to its end: the parameter holds the
    value of the event scheduled last, or the value it had when nothing
    was scheduled, and the schedule lies in the past.  [fadeGain]
    schedules the start of a ramp before its end, and the clock of an
    audio context does not go back, so the event scheduled last is the
    latest one. *)
Definition settle (d : DemoAudio) : DemoAudio :=
  mkDemo (frequency d) (started d)
    (List.last (map automation_value (gain_events d)) (gain_value d)) [].

(** The audio thread runs every schedule to its end.  This is the part
    of a fade of the tone that is left to the platform, as the firings
    of the timer are for a fade of a track. *)
Definition render (s : state) : state :=
  set_demos (settle <$> demos s) s.

(** *** Ducking *)

(** [onSpeechDetected()]. *)
Definition onSpeechDetected (currentTime : float) (s : state) : state :=
  if isVADMuted s then s
  else
    let s1 := set_isVADMuted true s in
    let s2 :=
      match currentAudio s1 with
      | Some a =>
          let s' := set_originalVolume (volume_of a s1) s1 in
          match originalVolume s' with
          | Some v =>
              fadeVolume a (v * vadDuckingFactor s')%float (vadFadeTime s') s'
          | None => s'
          end
      | None => s1
      end in
    match demoAudio s2 with
    | Some d =>
        let s' := set_originalGain (gain_of d s2) s2 in
        match originalGain s' with
        | Some g =>
            fadeGain d (g * vadDuckingFactor s')%float (vadFadeTime s')
              currentTime s'
        | None => s'
        end
    | None => s2
    end.

(** [onSpeechEnded()]. *)
Definition onSpeechEnded (currentTime : float) (s : state) : state :=
  if negb (isVADMuted s) then s
  else
    let s1 := set_isVADMuted false s in
    let s2 :=
      match currentAudio s1, originalVolume s1 with
      | Some a, Some v => fadeVolume a v (vadFadeTime s1) s1
      | _, _ => s1
      end in
    match demoAudio s2, originalGain s2 with
    | Some d, Some g => fadeGain d g (vadFadeTime s2) currentTime s2
    | _, _ => s2
    end.

End AudioSystem.

(** ** The renderer: listeners between the two classes *)

Module Renderer.

(** The voice processor, the audio system and the [active] class of the
    speech indicator. *)
Record state : Type := mkState {
  voiceProcessor : VoiceProcessor.state;
  audioSystem : AudioSystem.state;
  vadIndicatorActive : bool
}.

Definition init : state :=
  mkState VoiceProcessor.init AudioSystem.init false.

(** The listeners registered on [speechStart] and [speechEnd]; [emit]
    calls them synchronously.  [contextTime] is the clock of the audio
    context of the demo tone, read by [fadeGain]. *)
Definition listener (contextTime : float) (r : state)
    (e : VoiceProcessor.event) : state :=
  match e with
  | VoiceProcessor.speechStart =>
      mkState (voiceProcessor r)
        (AudioSystem.onSpeechDetected contextTime (audioSystem r)) true
  | VoiceProcessor.speechEnd =>
      mkState (voiceProcessor r)
        (AudioSystem.onSpeechEnded contextTime (audioSystem r)) false
  end.

Definition deliver (contextTime : float)
    (evs : list VoiceProcessor.event) (r : state) : state :=
  fold_left (listener contextTime) evs r.

(** A frame handed to [processVAD] with the listeners attached. *)
Definition processVAD (audioData : list float) (currentTime : Z)
    (contextTime : float) (r : state) : state :=
  let '(vp, evs, _) :=
    VoiceProcessor.processVAD audioData currentTime (voiceProcessor r) in
  deliver contextTime evs
    (mkState vp (audioSystem r) (vadIndicatorActive r)).

(** [setVADEnabled] with the listeners attached. *)
Definition setVADEnabled (enabled : bool) (contextTime : float)
    (r : state) : state :=
  let '(vp, evs) :=
    VoiceProcessor.setVADEnabled enabled (voiceProcessor r) in
  deliver contextTime evs
    (mkState vp (audioSystem r) (vadIndicatorActive r)).

End Renderer.

(** ** Vocabulary of the statements *)

Module Spec.

Import VoiceProcessor.

(** A call reads a clock that shows a positive number of milliseconds,
    as [Date.now()] does. *)
Definition clock_positive (c : call) : Prop :=
  match c with
  | Frame _ currentTime => 0 < currentTime
  | _ => True
  end.

(** The events of a run alternate, starting with [speechStart] when
    speech is not active and with [speechEnd] when it is. *)
Fixpoint alternates (active : bool) (evs : list event) : bool :=
  match evs with
  | [] => true
  | speechStart :: evs' => negb active && alternates true evs'
  | speechEnd :: evs' => active && alternates false evs'
  end.

(** The bounded history in the words of the specification: the oldest
    entry leaves when the new one would exceed the capacity. *)
Definition push_evict (capacity : nat) (history : list float)
    (x : float) : list float :=
  if (List.length history <? capacity)%nat
  then history ++ [x]
  else tail history ++ [x].

(** The mean of the history, [0] when it is empty; the sum is taken from
    the left. *)
Definition mean (history : list float) : float :=
  match history with
  | [] => 0%float
  | _ => (fold_left PrimFloat.add history 0 / JS.length_num history)%float
  end.

(** The per-frame update of the tracker in the words of the
    specification: smoothed energy, history and threshold. *)
Definition tracker_update (smoothingFactor baseThreshold : float)
    (capacity : nat) (smoothedEnergy : float) (history : list float)
    (e : float) : float * list float * float :=
  let smoothedEnergy' :=
    (smoothingFactor * smoothedEnergy + (1 - smoothingFactor) * e)%float in
  let history' := push_evict capacity history smoothedEnergy' in
  let rollingAverage := mean history' in
  (smoothedEnergy', history',
   JS.Math_max baseThreshold (rollingAverage * 1.5)%float).

(** The numbers of [speechStart] and of [speechEnd] events. *)
Definition starts (evs : list event) : nat :=
  List.length
    (List.filter
       (fun e => match e with speechStart => true | speechEnd => false end)
       evs).

Definition ends (evs : list event) : nat :=
  List.length
    (List.filter
       (fun e => match e with speechStart => false | speechEnd => true end)
       evs).

(** The property that [speechEnd] comes only from a processed frame
    whose time is [silenceTimeout] or more after [lastSpeechTime]. *)
Definition ends_only_after_silence (s : state) (c : call) : Prop :=
  In speechEnd (snd (step s c)) ->
  exists audioData currentTime,
    c = Frame audioData currentTime /\
    vadSilenceTimeout s <= currentTime - JS.to_number (lastSpeechTime s).

(** Two states that differ at most in [lastSpeechTime], and only while
    speech is not active. *)
Definition same_but_last (s s' : state) : Prop :=
  s' = s \/
  (isSpeechActive s = false /\ exists t, s' = set_lastSpeechTime t s).

(** The property that re-enabling resets the timers. *)
Definition reenable_resets_timers (s : state) : Prop :=
  let s' := fst (setVADEnabled true s) in
  speechStartTime s' = None /\ lastSpeechTime s' = None.

(** What holds of every state the constructor and the calls can
    produce. *)
Record configured (s : state) : Prop := mkConfigured {
  inv_factor : vadSmoothingFactor s = 0.8%float;
  inv_capacity : maxHistoryLength s = 10%nat;
  inv_min : vadMinSpeechDuration s = 300;
  inv_timeout : vadSilenceTimeout s = 1000;
  inv_history : (List.length (energyHistory s) <= 10)%nat
}.

(** What holds in addition as long as the clock is positive: while
    speech is active, detection is enabled and [lastSpeechTime] is
    truthy. *)
Record timed (s : state) : Prop := mkTimed {
  inv_last : isSpeechActive s = true -> JS.truthy (lastSpeechTime s) = true;
  inv_enabled : isSpeechActive s = true -> vadEnabled s = true
}.

(** The volume of the track that is playing, if any, and the gain of the
    demo tone, if any. *)
Definition playing_volume (s : AudioSystem.state) : option float :=
  match AudioSystem.currentAudio s with
  | Some a => AudioSystem.volume_of a s
  | None => None
  end.

Definition playing_gain (s : AudioSystem.state) : option float :=
  match AudioSystem.demoAudio s with
  | Some d => AudioSystem.gain_of d s
  | None => None
  end.

(** The property that a sink attached while the system is ducked starts
    at the ducked gain: the gain it would otherwise start at, times the
    ducking factor. *)
Definition attaches_ducked (normalGain : float)
    (s : AudioSystem.state) (attached : option float) : Prop :=
  AudioSystem.isVADMuted s = true ->
  attached = Some (normalGain * AudioSystem.vadDuckingFactor s)%float.

End Spec.

(** ** Concrete inputs *)

Module Scenario.

Import VoiceProcessor.

(** A silent frame and a frame at full scale. *)
Definition quiet : list float := [0%float; 0%float; 0%float; 0%float].
Definition loud : list float := [1%float; (-1)%float; 1%float; (-1)%float].

(** One loud frame between silent ones: energy rises above the threshold
    at 2000 and is below it again at 2100. *)
Definition aborted_episode : list call :=
  [Frame quiet 1000; Frame loud 2000; Frame quiet 2100; Frame quiet 2200;
   Frame quiet 2300; Frame quiet 2400; Frame quiet 2500; Frame quiet 2600;
   Frame quiet 2700; Frame quiet 2800; Frame quiet 2900; Frame quiet 3000].

(** Speech that becomes active at 2300. *)
Definition active_episode : list call :=
  [Frame quiet 1000; Frame loud 2000; Frame loud 2100; Frame loud 2200;
   Frame loud 2300].

(** Two search results with a preview. *)
Definition rain : AudioSystem.track :=
  AudioSystem.mkTrack "rain"%string
    (Some (AudioSystem.mkPreviews
             (Some "https://cdn.example/rain-hq.mp3"%string) None)).
Definition piano : AudioSystem.track :=
  AudioSystem.mkTrack "piano"%string
    (Some (AudioSystem.mkPreviews None
             (Some "https://cdn.example/piano-lq.mp3"%string))).

(** The audio system with [rain] playing at volume 0.5, ducked, the fade
    of the duck run to its end. *)
Definition ducked : AudioSystem.state :=
  AudioSystem.fires (replicate AudioSystem.steps 0%nat)
    (AudioSystem.onSpeechDetected 0
       (AudioSystem.playTrack rain true AudioSystem.init)).

End Scenario.

(** ** The audio system: volume, stop, search and commands *)

Module Playback.

Import AudioSystem.

Definition set_volume (v : float) (s : state) : state :=
  mkState v (currentAudio s) (demoAudio s) (isVADMuted s)
    (originalVolume s) (originalGain s) (vadDuckingFactor s) (vadFadeTime s)
    (elements s) (demos s) (intervals s).

Definition set_vadDuckingFactor (f : float) (s : state) : state :=
  mkState (volume s) (currentAudio s) (demoAudio s) (isVADMuted s)
    (originalVolume s) (originalGain s) f (vadFadeTime s) (elements s)
    (demos s) (intervals s).

Definition with_gain (g : float) (d : DemoAudio) : DemoAudio :=
  mkDemo (frequency d) (started d) g (gain_events d).

Definition with_started (b : bool) (d : DemoAudio) : DemoAudio :=
  mkDemo (frequency d) b (gain_value d) (gain_events d).

(** [gainNode.gain.value = g] on the demo audio at reference [d]. *)
Definition write_gain (d : nat) (g : float) (s : state) : state :=
  set_demos (alter (with_gain g) d (demos s)) s.

(** [oscillator.stop()] and [audioContext.close()] on the demo audio at
    reference [d]; the two are always called together and are recorded
    as one flag. *)
Definition stop_demo (d : nat) (s : state) : state :=
  set_demos (alter (with_started false) d (demos s)) s.

(** [setVADDuckingFactor(factor)]. *)
Definition setVADDuckingFactor (factor : float) (s : state) : state :=
  set_vadDuckingFactor (JS.Math_max 0.1 (JS.Math_min 1.0 factor)) s.

(** The audio system with the fields that playback control reads or
    writes beside those of [AudioSystem.state]. *)
Record player : Type := mkPlayer {
  audio : state;
  currentMusicStyle : string;
  isPlaying : bool;
  freesoundApiKey : option string;
  trackCache : gmap string track
}.

(** The constructor. *)
Definition init : player :=
  mkPlayer AudioSystem.init "ambient" false None ∅.

Definition set_audio (s : state) (p : player) : player :=
  mkPlayer s (currentMusicStyle p) (isPlaying p) (freesoundApiKey p)
    (trackCache p).

(** The payload of a [music-changed] event; [trackName] is absent in the
    events of [adjustVolume] and [stopMusic]. *)
Inductive event : Type :=
| music_changed (style : string) (playing : bool) (vol : float)
    (trackName : option string).

(** [adjustVolume(delta)]. *)
Definition adjustVolume (delta : float) (p : player)
  : player * list event :=
  let s := audio p in
  let s1 :=
    set_volume (JS.Math_max 0 (JS.Math_min 1 (volume s + delta)))%float s in
  let s2 :=
    match currentAudio s1 with
    | Some a => write_volume a (volume s1) s1
    | None => s1
    end in
  let s3 :=
    match demoAudio s2 with
    | Some d => write_gain d (volume s2 * 0.1)%float s2
    | None => s2
    end in
  (set_audio s3 p,
   [music_changed (currentMusicStyle p) (isPlaying p) (volume s3) None]).

(** [stopMusic()]. *)
Definition stopMusic (p : player) : player * list event :=
  let s := audio p in
  let s1 :=
    match currentAudio s with
    | Some a => set_currentAudio None (pause a s)
    | None => s
    end in
  let s2 :=
    match demoAudio s1 with
    | Some d => set_demoAudio None (stop_demo d s1)
    | None => s1
    end in
  (mkPlayer s2 (currentMusicStyle p) false (freesoundApiKey p)
     (trackCache p),
   [music_changed (currentMusicStyle p) false (volume s2) None]).

(** *** Search *)

(** What the interpretation of a request gives. *)
Record searchQuery : Type := mkQuery {
  query : string;
  filter : string;
  style : string;
  mood : string
}.

(** What [fetch] and [response.json()] give: an exception, or an object
    whose [results] may be absent. *)
Inductive fetched : Type :=
| Threw
| Data (results : option (list track)).

(** What [findAndPlayTrack] returns: a search result, or the object that
    [playDemoTrack] makes for a style. *)
Inductive sound : Type :=
| Found (t : track)
| DemoTone (demoStyle : string).

Definition sound_name (x : sound) : string :=
  match x with
  | Found t => name t
  | DemoTone st => ("Demo " ++ st ++ " tone")%string
  end.

(** Truthiness of the API key. *)
Definition truthy_key (k : option string) : bool := truthy_url k.

(** The key under which a search is cached. *)
Definition cacheKey (q : searchQuery) : string :=
  (query q ++ "-" ++ filter q)%string.

(** How a call of [findAndPlayTrack] ends: it returns a sound, or it is
    rejected with the exception of [playTrack]. *)
Inductive settled : Type :=
| Fulfilled (x : sound)
| Rejected.

(** [findAndPlayTrack(searchQuery)].  [response] is what the request to
    the search service gives if it is made, [played] whether [play()]
    succeeds if it is called.  The cached track is played outside the
    [try] block, so an exception of [playTrack] rejects the call there;
    for a search result it is caught, after the result has been put in
    the cache, and the demo tone is played. *)
Definition findAndPlayTrack (q : searchQuery) (response : fetched)
    (played : bool) (p : player) : player * settled :=
  match trackCache p !! cacheKey q with
  | Some cachedTrack =>
      (set_audio (playTrack cachedTrack played (audio p)) p,
       if playTrack_throws cachedTrack then Rejected
       else Fulfilled (Found cachedTrack))
  | None =>
      if negb (truthy_key (freesoundApiKey p))
      then (set_audio (playDemoTrack (style q) (audio p)) p,
            Fulfilled (DemoTone (style q)))
      else
        match response with
        | Data (Some (t :: _)) =>
            let p1 :=
              mkPlayer (playTrack t played (audio p)) (currentMusicStyle p)
                (isPlaying p) (freesoundApiKey p)
                (<[cacheKey q := t]> (trackCache p)) in
            if playTrack_throws t
            then (set_audio (playDemoTrack (style q) (audio p1)) p1,
                  Fulfilled (DemoTone (style q)))
            else (p1, Fulfilled (Found t))
        | Data _ | Threw =>
            (set_audio (playDemoTrack (style q) (audio p)) p,
             Fulfilled (DemoTone (style q)))
        end
  end.

(** [s.includes(pattern)]. *)
Fixpoint includes (s pattern : string) : bool :=
  if String.prefix pattern s then true
  else match s with
       | EmptyString => false
       | String _ s' => includes s' pattern
       end.

(** [toLowerCase()] on text in ASCII: the letters [A] to [Z] are mapped,
    every other byte is kept. *)
Definition lower_ascii (c : Ascii.ascii) : Ascii.ascii :=
  let n := Ascii.nat_of_ascii c in
  if ((65 <=? n) && (n <=? 90))%nat then Ascii.ascii_of_nat (n + 32) else c.

Fixpoint toLowerCase (s : string) : string :=
  match s with
  | EmptyString => EmptyString
  | String c s' => String (lower_ascii c) (toLowerCase s')
  end.

(** The licence clause that every fallback filter ends with. *)
Definition cc0 : string :=
  ("license:" ++ String "034"%char "Creative Commons 0"
   ++ String "034"%char EmptyString)%string.

(** [fallbackInterpretation(userInput)]. *)
Definition fallbackInterpretation (userInput : string) : searchQuery :=
  let input := toLowerCase userInput in
  if (includes input "rock" || includes input "guitar"
      || includes input "electric")%bool
  then mkQuery "rock guitar electric music"
         ("tag:rock duration:[60 TO *] avg_rating:[3 TO *] " ++ cc0)
         "rock" "energetic"
  else if (includes input "metal" || includes input "heavy")%bool
  then mkQuery "metal heavy guitar"
         ("tag:metal duration:[60 TO *] avg_rating:[3 TO *] " ++ cc0)
         "metal" "aggressive"
  else if (includes input "ambient" || includes input "atmospheric")%bool
  then mkQuery "ambient drone atmospheric"
         ("tag:ambient duration:[60 TO *] avg_rating:[3 TO *] " ++ cc0)
         "ambient" "peaceful"
  else if (includes input "rain" || includes input "rainfall")%bool
  then mkQuery "rain weather nature"
         ("tag:rain duration:[30 TO *] avg_rating:[3 TO *] " ++ cc0)
         "nature" "calming"
  else if includes input "piano"
  then mkQuery "piano peaceful solo"
         ("tag:piano duration:[60 TO *] avg_rating:[3 TO *] " ++ cc0)
         "piano" "peaceful"
  else if (includes input "focus" || includes input "concentrate")%bool
  then mkQuery "focus study concentration"
         ("tag:focus duration:[120 TO *] avg_rating:[3 TO *] " ++ cc0)
         "focus" "concentrated"
  else mkQuery "ambient peaceful background"
         ("duration:[60 TO *] avg_rating:[3 TO *] " ++ cc0)
         "ambient" "peaceful".

(** [interpretMusicRequest(userInput)]: the answer of the main process,
    or the fallback when the call fails. *)
Definition interpretMusicRequest (userInput : string)
    (answer : option searchQuery) : searchQuery :=
  match answer with
  | Some result => result
  | None => fallbackInterpretation userInput
  end.

(** [startBackgroundMusic(style)].  The object that [findAndPlayTrack]
    returns is always truthy, so the branch on it is always taken; a
    rejection of [findAndPlayTrack] ends the call. *)
Definition startBackgroundMusic (requested : string)
    (answer : option searchQuery) (response : fetched) (played : bool)
    (p : player) : player * list event :=
  let p1 :=
    mkPlayer (audio p) requested (isPlaying p) (freesoundApiKey p)
      (trackCache p) in
  let searchQuery := interpretMusicRequest requested answer in
  let '(p2, result) := findAndPlayTrack searchQuery response played p1 in
  match result with
  | Fulfilled track =>
      (mkPlayer (audio p2) (currentMusicStyle p2) true (freesoundApiKey p2)
         (trackCache p2),
       [music_changed requested true (volume (audio p2))
          (Some (sound_name track))])
  | Rejected => (p2, [])
  end.

(** [resumeMusic()]. *)
Definition resumeMusic (answer : option searchQuery) (response : fetched)
    (played : bool) (p : player) : player * list event :=
  if negb (isPlaying p)
  then startBackgroundMusic (currentMusicStyle p) answer response played p
  else (p, []).

(** A command: [action] and [text] may be absent. *)
Record command : Type := mkCommand {
  action : option string;
  text : option string
}.

(** [a || b || c] on strings that may be absent. *)
Definition first_truthy (a b : option string) (c : string) : string :=
  match a with
  | Some x => if truthy_url a then x
              else match b with
                   | Some y => if truthy_url b then y else c
                   | None => c
                   end
  | None => match b with
            | Some y => if truthy_url b then y else c
            | None => c
            end
  end.

(** The part of [executeCommand] after the [switch]. *)
Definition playRequest (c : command) (answer : option searchQuery)
    (response : fetched) (played : bool) (p : player)
  : player * list event :=
  let musicRequest :=
    first_truthy (text c) (action c) "ambient background music" in
  let searchQuery := interpretMusicRequest musicRequest answer in
  let '(p1, result) := findAndPlayTrack searchQuery response played p in
  match result with
  | Fulfilled track =>
      (mkPlayer (audio p1) (style searchQuery) true (freesoundApiKey p1)
         (trackCache p1),
       [music_changed (style searchQuery) true (volume (audio p1))
          (Some (sound_name track))])
  | Rejected => (p1, [])
  end.

(** [executeCommand(command)]. *)
Definition executeCommand (c : command) (answer : option searchQuery)
    (response : fetched) (played : bool) (p : player)
  : player * list event :=
  match action c with
  | Some a =>
      if String.eqb a "volume_up" then adjustVolume 0.1 p
      else if String.eqb a "volume_down" then adjustVolume (-0.1) p
      else if String.eqb a "stop" then stopMusic p
      else if String.eqb a "play"
      then resumeMusic answer response played p
      else playRequest c answer response played p
  | None => playRequest c answer response played p
  end.

End Playback.

(** ** The application as a whole *)

Module Session.

(** The detector, the audio system and the speech indicator. *)
Record state : Type := mkState {
  voice : VoiceProcessor.state;
  player : Playback.player;
  indicator : bool
}.

Definition init : state :=
  mkState VoiceProcessor.init Playback.init false.

(** The part of the state that the listeners of [Renderer] act on. *)
Definition renderer (x : state) : Renderer.state :=
  Renderer.mkState (voice x) (Playback.audio (player x)) (indicator x).

Definition set_renderer (r : Renderer.state) (x : state) : state :=
  mkState (Renderer.voiceProcessor r)
    (Playback.set_audio (Renderer.audioSystem r) (player x))
    (Renderer.vadIndicatorActive r).

Definition set_player (p : Playback.player) (x : state) : state :=
  mkState (voice x) p (indicator x).

(** What can happen to the application: frames, settings, commands, and
    firings of fade timers. *)
Inductive call : Type :=
| Frame (audioData : list float) (currentTime : Z) (contextTime : float)
| SetVADEnabled (enabled : bool) (contextTime : float)
| SetVADThreshold (threshold : float)
| SetVADDuckingFactor (factor : float)
| ExecuteCommand (c : Playback.command)
    (answer : option Playback.searchQuery) (response : Playback.fetched)
    (played : bool)
| StartBackgroundMusic (requested : string)
    (answer : option Playback.searchQuery) (response : Playback.fetched)
    (played : bool)
| Fire (id : nat).

Definition step (x : state) (c : call) : state :=
  match c with
  | Frame audioData currentTime contextTime =>
      set_renderer
        (Renderer.processVAD audioData currentTime contextTime (renderer x))
        x
  | SetVADEnabled enabled contextTime =>
      set_renderer (Renderer.setVADEnabled enabled contextTime (renderer x))
        x
  | SetVADThreshold threshold =>
      mkState (VoiceProcessor.setVADThreshold threshold (voice x))
        (player x) (indicator x)
  | SetVADDuckingFactor factor =>
      set_player
        (Playback.set_audio
           (Playback.setVADDuckingFactor factor (Playback.audio (player x)))
           (player x)) x
  | ExecuteCommand c answer response played =>
      set_player
        (fst (Playback.executeCommand c answer response played (player x)))
        x
  | StartBackgroundMusic requested answer response played =>
      set_player
        (fst (Playback.startBackgroundMusic requested answer response
                played (player x))) x
  | Fire id =>
      set_player
        (Playback.set_audio (AudioSystem.fire id (Playback.audio (player x)))
           (player x)) x
  end.

Definition run (x : state) (cs : list call) : state :=
  fold_left step cs x.

End Session.

(** ** Further vocabulary *)

Module Observations.

(** A call that is not [setVADThreshold]. *)
Definition keeps_threshold (c : VoiceProcessor.call) : Prop :=
  match c with
  | VoiceProcessor.SetVADThreshold _ => False
  | _ => True
  end.

(** A player with a search key and "k" as its value. *)
Definition with_key (p : Playback.player) : Playback.player :=
  Playback.mkPlayer (Playback.audio p) (Playback.currentMusicStyle p)
    (Playback.isPlaying p) (Some "k"%string) (Playback.trackCache p).

(** A search result whose only preview is the empty string, and one
    without [previews]. *)
Definition silent_track : AudioSystem.track :=
  AudioSystem.mkTrack "mute"%string
    (Some (AudioSystem.mkPreviews None (Some EmptyString))).

Definition bare_result : AudioSystem.track :=
  AudioSystem.mkTrack "bare"%string None.

End Observations.

(** ** The detector: invariants of runs *)

Module VADFacts.

Import VoiceProcessor Spec.

(** Projections of records that are given by their fields. *)
Ltac vad_simpl :=
  cbn [vadEnabled vadThreshold vadSmoothingFactor vadMinSpeechDuration
       vadSilenceTimeout currentEnergy speechStartTime lastSpeechTime
       isSpeechActive energyHistory maxHistoryLength set_vadEnabled
       set_vadThreshold set_currentEnergy set_speechStartTime
       set_lastSpeechTime set_isSpeechActive set_energyHistory
       fst snd negb andb JS.to_number] in *.

(** Case analysis on the conditions of the remaining conditionals,
    innermost first. *)
Ltac vad_cases :=
  repeat match goal with
    | |- context [if ?b then _ else _] =>
        lazymatch b with
        | context [if _ then _ else _] => fail
        | _ => destruct b eqn:?; vad_simpl
        end
    end.

Lemma run_app (s : state) (cs1 cs2 : list call) :
  run s (cs1 ++ cs2) =
  (fst (run (fst (run s cs1)) cs2),
   snd (run s cs1) ++ snd (run (fst (run s cs1)) cs2)).
Proof.
  revert s; induction cs1 as [|c cs1 IH]; intros s; simpl.
  - now destruct (run s cs2).
  - destruct (step s c) as [s1 evs1]; rewrite IH.
    destruct (run s1 cs1) as [s2 evs2]; simpl.
    now rewrite app_assoc.
Qed.

Lemma processVAD_disabled (audio : list float) (now : Z) (s : state) :
  vadEnabled s = false -> processVAD audio now s = (s, [], false).
Proof. intros H; unfold processVAD; now rewrite H. Qed.

Lemma processVAD_enabled (audio : list float) (now : Z) (s : state) :
  vadEnabled s = true ->
  processVAD audio now s =
  let r := if isSpeechDetected (smoothEnergy audio s)
           then onDetected now (smoothEnergy audio s)
           else onQuiet now (smoothEnergy audio s) in
  (fst r, snd r, isSpeechActive (fst r)).
Proof.
  intros H; unfold processVAD; rewrite H; simpl.
  destruct (isSpeechDetected (smoothEnergy audio s));
    [destruct (onDetected now (smoothEnergy audio s))
    |destruct (onQuiet now (smoothEnergy audio s))]; reflexivity.
Qed.

Lemma length_shift (h : list float) (x : float) :
  List.length (tail (h ++ [x])) = List.length h.
Proof.
  destruct h; simpl; auto. rewrite length_app; simpl; lia.
Qed.

(** Smoothing writes [currentEnergy] and [energyHistory] only, and keeps
    the history within its capacity. *)
Lemma smoothEnergy_fields (audio : list float) (s : state) :
  let s1 := smoothEnergy audio s in
  vadEnabled s1 = vadEnabled s /\
  vadThreshold s1 = vadThreshold s /\
  vadSmoothingFactor s1 = vadSmoothingFactor s /\
  vadMinSpeechDuration s1 = vadMinSpeechDuration s /\
  vadSilenceTimeout s1 = vadSilenceTimeout s /\
  speechStartTime s1 = speechStartTime s /\
  lastSpeechTime s1 = lastSpeechTime s /\
  isSpeechActive s1 = isSpeechActive s /\
  maxHistoryLength s1 = maxHistoryLength s /\
  ((List.length (energyHistory s) <= maxHistoryLength s)%nat ->
   (List.length (energyHistory s1) <= maxHistoryLength s)%nat).
Proof.
  destruct s as [en thr sf msd sto ce sst lst act h cap].
  unfold smoothEnergy, updateEnergyHistory; vad_simpl.
  set (x := (sf * ce + (1 - sf) * calculateAudioEnergy audio)%float).
  destruct (Nat.ltb_spec cap (List.length (h ++ [x]))); vad_simpl;
    repeat split; intros Hlen.
  - rewrite length_shift; exact Hlen.
  - assumption.
Qed.

(** Replace the state after smoothing by a record of variables, keeping
    what is known of its fields. *)
Ltac vad_smooth audio s :=
  let H := fresh "Hsmooth" in
  pose proof (smoothEnergy_fields audio s) as H; cbv zeta in H;
  destruct (smoothEnergy audio s);
  vad_simpl;
  destruct H as (? & ? & ? & ? & ? & ? & ? & ? & ? & ?).

Lemma configured_init : configured init.
Proof. split; simpl; auto; lia. Qed.

Lemma timed_init : timed init.
Proof. split; simpl; discriminate. Qed.

Lemma truthy_positive (t : Z) : 0 < t -> JS.truthy (Some t) = true.
Proof. intros H; simpl. destruct (Z.eqb_spec t 0); auto; lia. Qed.

Lemma configured_step (s : state) (c : call) :
  configured s -> configured (fst (step s c)).
Proof.
  intros [Hf Hc Hm Ht Hh].
  destruct c as [audio now | enabled | threshold]; cbn [step].
  - destruct (vadEnabled s) eqn:Hon.
    2:{ rewrite processVAD_disabled by assumption. now split. }
    rewrite processVAD_enabled by assumption. cbn [fst].
    rewrite <- Hc in Hh.
    vad_smooth audio s.
    destruct (isSpeechDetected _); unfold onDetected, onQuiet; vad_simpl;
      vad_cases; split; vad_simpl; try congruence;
      rewrite <- Hc; auto.
  - unfold setVADEnabled; vad_cases; now split.
  - now split.
Qed.

Lemma timed_step (s : state) (c : call) :
  timed s -> clock_positive c -> timed (fst (step s c)).
Proof.
  intros [Hl He] Hpos.
  destruct c as [audio now | enabled | threshold]; cbn [step];
    cbn in Hpos.
  - pose proof (truthy_positive now Hpos) as Hnow; cbn in Hnow.
    destruct (vadEnabled s) eqn:Hon.
    2:{ rewrite processVAD_disabled by assumption.
        split; [exact Hl | intros Ha; specialize (He Ha); congruence]. }
    rewrite processVAD_enabled by assumption. cbn [fst].
    vad_smooth audio s.
    destruct (isSpeechDetected _); unfold onDetected, onQuiet; vad_simpl;
      vad_cases; split; vad_simpl; intros; subst;
      try discriminate; try congruence; auto.
  - destruct s as [en thr sf msd sto ce sst lst act h cap].
    unfold setVADEnabled; vad_simpl.
    destruct enabled, act; vad_simpl; split; vad_simpl; auto; discriminate.
  - split; auto.
Qed.

Lemma configured_run (s : state) (cs : list call) :
  configured s -> configured (fst (run s cs)).
Proof.
  revert s; induction cs as [|c cs IH]; intros s Hs; simpl; auto.
  pose proof (configured_step s c Hs) as H1.
  destruct (step s c) as [s1 evs1]; simpl in *.
  specialize (IH s1 H1).
  now destruct (run s1 cs).
Qed.

Lemma timed_run (s : state) (cs : list call) :
  timed s -> Forall clock_positive cs -> timed (fst (run s cs)).
Proof.
  revert s; induction cs as [|c cs IH]; intros s Hs Hcs; simpl; auto.
  inversion Hcs as [|? ? Hc Hcs']; subst.
  pose proof (timed_step s c Hs Hc) as H1.
  destruct (step s c) as [s1 evs1]; simpl in *.
  specialize (IH s1 H1 Hcs').
  now destruct (run s1 cs).
Qed.

End VADFacts.

(** ** The detector: theorems *)

Module VADTheorems.

Import VoiceProcessor Spec Scenario VADFacts.

(** *** Frames while detection is disabled *)

(** C10: when [vadEnabled] is false, [processVAD] returns [false], emits
    no event and leaves every field of the detector as it was, and so
    does any sequence of frames. *)
Theorem processVAD_disabled_noop (s : state)
    (frames : list (list float * Z)) :
  vadEnabled s = false ->
  (forall audio now, processVAD audio now s = (s, [], false)) /\
  run s (map (fun f => Frame (fst f) (snd f)) frames) = (s, []).
Proof.
  intros Hoff; split.
  - intros audio now; now apply processVAD_disabled.
  - induction frames as [|[audio now] frames IH]; simpl; auto.
    rewrite processVAD_disabled by assumption; simpl.
    now rewrite IH.
Qed.

Lemma processVAD_disabled_noop_witness :
  let s := fst (run init (active_episode ++ [SetVADEnabled false])) in
  (forall audio now, processVAD audio now s = (s, [], false)) /\
  run s (map (fun f => Frame (fst f) (snd f)) [(loud, 5000); (quiet, 5100)])
  = (s, []).
Proof.
  apply (processVAD_disabled_noop
           (fst (run init (active_episode ++ [SetVADEnabled false])))
           [(loud, 5000); (quiet, 5100)]).
  vm_compute; reflexivity.
Defined.

(** *** The energy of an empty frame *)

(** C3, at the failing input: for a frame of length zero
    [calculateAudioEnergy] divides [0] by [0] and returns NaN, not [0];
    the NaN enters the smoothed energy and the threshold, and frames that
    start speech in a fresh detector no longer do. *)
Theorem calculateAudioEnergy_empty_frame :
  calculateAudioEnergy [] = PrimFloat.nan /\
  PrimFloat.eqb (calculateAudioEnergy []) 0 = false /\
  snd (run init active_episode) = [speechStart] /\
  let '(s, evs) := run init (Frame [] 500 :: active_episode) in
  evs = [] /\ currentEnergy s = PrimFloat.nan /\ isSpeechActive s = false.
Proof. vm_compute. repeat split; reflexivity. Qed.

(** *** An episode shorter than the minimum duration *)

(** C1, at the failing input: a frame below the threshold while speech
    is not active changes nothing, so it does not reset
    [speechStartTime].  With energy above the threshold at 2000 and below
    it at 2100, no event is emitted, but [speechStartTime] keeps the
    value 2000, and the next frame above the threshold, at 60000, emits
    [speechStart] at once, timed from 2000. *)
Theorem aborted_episode_keeps_speechStartTime :
  (forall now s, isSpeechActive s = false -> onQuiet now s = (s, [])) /\
  let s0 := fst (run init [Frame quiet 1000]) in
  let s1 := fst (run init [Frame quiet 1000; Frame loud 2000]) in
  isSpeechDetected (smoothEnergy loud s0) = true /\
  isSpeechDetected (smoothEnergy quiet s1) = false /\
  let '(s, evs) := run init aborted_episode in
  evs = [] /\ isSpeechActive s = false /\
  speechStartTime s = Some 2000 /\
  let '(s', evs', active) := processVAD loud 60000 s in
  evs' = [speechStart] /\ active = true /\ speechStartTime s' = Some 2000.
Proof.
  split.
  - intros now s Hinactive. unfold onQuiet. now rewrite Hinactive.
  - vm_compute. repeat split; reflexivity.
Qed.

(** *** The adaptive threshold tracker *)

Lemma getAverageEnergy_mean (s : state) :
  getAverageEnergy s = mean (energyHistory s).
Proof. unfold getAverageEnergy, mean. now destruct (energyHistory s). Qed.

Lemma updateEnergyHistory_push_evict (s : state) (x : float) :
  (List.length (energyHistory s) <= maxHistoryLength s)%nat ->
  (0 < maxHistoryLength s)%nat ->
  energyHistory (updateEnergyHistory x s) =
  push_evict (maxHistoryLength s) (energyHistory s) x.
Proof.
  intros Hlen Hcap. unfold updateEnergyHistory, push_evict.
  rewrite length_app; simpl.
  destruct (Nat.ltb_spec (maxHistoryLength s) (List.length (energyHistory s) + 1));
    destruct (Nat.ltb_spec (List.length (energyHistory s)) (maxHistoryLength s));
    simpl; auto; try lia.
  destruct (energyHistory s); simpl in *; auto; lia.
Qed.

Lemma length_push_evict (capacity : nat) (h : list float) (x : float) :
  (List.length h <= capacity)%nat -> (0 < capacity)%nat ->
  (List.length (push_evict capacity h x) <= capacity)%nat.
Proof.
  intros Hlen Hcap. unfold push_evict.
  destruct (Nat.ltb_spec (List.length h) capacity);
    rewrite length_app; simpl; [lia|].
  destruct h; simpl in *; lia.
Qed.

(** C4: on a processed frame of a detector built by the constructor, the
    smoothed energy, the history and the threshold that decides the frame
    are those of the specified update with factor 0.8, capacity 10 and
    multiplier 1.5, and the history holds at most 10 entries. *)
Theorem tracker_update_refines (cs : list call) (audio : list float)
    (now : Z) :
  let s := fst (run init cs) in
  vadEnabled s = true ->
  let '(smoothedEnergy', history', threshold) :=
    tracker_update 0.8 (vadThreshold s) 10 (currentEnergy s)
      (energyHistory s) (calculateAudioEnergy audio) in
  let s1 := set_energyHistory history' (set_currentEnergy smoothedEnergy' s) in
  let s' := fst (fst (processVAD audio now s)) in
  vadSmoothingFactor s = 0.8%float /\
  maxHistoryLength s = 10%nat /\
  currentEnergy s' = smoothedEnergy' /\
  energyHistory s' = history' /\
  (List.length (energyHistory s') <= 10)%nat /\
  fst (processVAD audio now s) =
    (if JS.gt smoothedEnergy' threshold
     then onDetected now s1
     else onQuiet now s1).
Proof.
  intros s Hon.
  destruct (configured_run init cs configured_init) as [Hf Hc _ _ Hh].
  fold s in Hf, Hc, Hh.
  cbv [tracker_update]; cbv zeta.
  set (x := (0.8 * currentEnergy s
             + (1 - 0.8) * calculateAudioEnergy audio)%float).
  assert (Hsm : smoothEnergy audio s =
                set_energyHistory (push_evict 10 (energyHistory s) x)
                  (set_currentEnergy x s)).
  { unfold smoothEnergy; cbv zeta. rewrite Hf. fold x.
    pose proof (updateEnergyHistory_push_evict (set_currentEnergy x s) x)
      as Hp.
    cbn [energyHistory maxHistoryLength set_currentEnergy
         currentEnergy] in *.
    rewrite Hc in Hp. specialize (Hp Hh ltac:(lia)).
    rewrite <- Hp. unfold updateEnergyHistory.
    cbn [energyHistory maxHistoryLength set_currentEnergy].
    destruct (_ <? _)%nat; reflexivity. }
  rewrite processVAD_enabled by assumption. cbv zeta. cbn [fst].
  assert (Hkeep : forall r : state * list event,
            r = (if isSpeechDetected (smoothEnergy audio s)
                 then onDetected now (smoothEnergy audio s)
                 else onQuiet now (smoothEnergy audio s)) ->
            currentEnergy (fst r) = x /\
            energyHistory (fst r) = push_evict 10 (energyHistory s) x).
  { intros r ->. rewrite Hsm.
    destruct (isSpeechDetected _); unfold onDetected, onQuiet;
      vad_simpl; vad_cases; auto. }
  destruct (Hkeep _ eq_refl) as [Hcur Hhist].
  split; [exact Hf|]. split; [exact Hc|].
  split; [exact Hcur|]. split; [exact Hhist|]. split.
  - rewrite Hhist. apply length_push_evict; [exact Hh | lia].
  - clear Hkeep Hcur Hhist. rewrite Hsm.
    set (s1 := set_energyHistory _ _).
    assert (Hdet : isSpeechDetected s1 =
                   JS.gt x (JS.Math_max (vadThreshold s)
                              (mean (push_evict 10 (energyHistory s) x)
                               * 1.5)%float)).
    { unfold isSpeechDetected, adaptiveThreshold.
      now rewrite getAverageEnergy_mean. }
    rewrite Hdet.
    destruct (JS.gt _ _);
      [destruct (onDetected now s1)|destruct (onQuiet now s1)];
      reflexivity.
Qed.

Lemma tracker_update_refines_witness :
  let s := fst (run init active_episode) in
  let '(smoothedEnergy', history', threshold) :=
    tracker_update 0.8 (vadThreshold s) 10 (currentEnergy s)
      (energyHistory s) (calculateAudioEnergy loud) in
  let s1 := set_energyHistory history' (set_currentEnergy smoothedEnergy' s) in
  let s' := fst (fst (processVAD loud 2400 s)) in
  vadSmoothingFactor s = 0.8%float /\
  maxHistoryLength s = 10%nat /\
  currentEnergy s' = smoothedEnergy' /\
  energyHistory s' = history' /\
  (List.length (energyHistory s') <= 10)%nat /\
  fst (processVAD loud 2400 s) =
    (if JS.gt smoothedEnergy' threshold
     then onDetected 2400 s1
     else onQuiet 2400 s1).
Proof.
  apply (tracker_update_refines active_episode loud 2400).
  vm_compute; reflexivity.
Defined.

(** *** The end of an episode *)

Lemma alternates_step (s : state) (c : call) (rest : list event) :
  alternates (isSpeechActive s) (snd (step s c) ++ rest) =
  alternates (isSpeechActive (fst (step s c))) rest.
Proof.
  destruct c as [audio now | enabled | threshold]; cbn [step].
  - destruct (vadEnabled s) eqn:Hon.
    2:{ now rewrite processVAD_disabled by assumption. }
    rewrite processVAD_enabled by assumption. cbv zeta. cbn [fst snd].
    pose proof (smoothEnergy_fields audio s) as Hsm; cbv zeta in Hsm.
    destruct Hsm as (_ & _ & _ & _ & _ & _ & _ & Hact & _).
    rewrite <- Hact. clear Hact.
    destruct (smoothEnergy audio s)
      as [en1 thr1 sf1 msd1 sto1 ce1 sst1 lst1 act1 h1 cap1].
    destruct (isSpeechDetected _); unfold onDetected, onQuiet;
      vad_simpl; vad_cases; auto;
      repeat match goal with
        | H : (_ && _)%bool = true |- _ => apply andb_prop in H; destruct H
        | H : negb _ = true |- _ => apply negb_true_iff in H
        end; subst; auto.
  - destruct s as [en thr sf msd sto ce sst lst act h cap].
    unfold setVADEnabled; vad_simpl. destruct enabled, act; reflexivity.
  - reflexivity.
Qed.

Lemma alternates_run (s : state) (cs : list call) :
  alternates (isSpeechActive s) (snd (run s cs)) = true.
Proof.
  revert s; induction cs as [|c cs IH]; intros s; simpl; auto.
  pose proof (alternates_step s c) as Hstep.
  destruct (step s c) as [s1 evs1]; simpl in *.
  specialize (IH s1). destruct (run s1 cs) as [s2 evs2]; simpl in *.
  now rewrite Hstep.
Qed.

Lemma alternates_run_app (s : state) (cs : list call)
    (rest : list event) :
  alternates (isSpeechActive s) (snd (run s cs) ++ rest) =
  alternates (isSpeechActive (fst (run s cs))) rest.
Proof.
  revert s; induction cs as [|c cs IH]; intros s; simpl; auto.
  pose proof (alternates_step s c) as Hstep.
  destruct (step s c) as [s1 evs1]; simpl in *.
  specialize (IH s1). destruct (run s1 cs) as [s2 evs2]; simpl in *.
  now rewrite <- app_assoc, Hstep.
Qed.

(** In an alternating sequence the ends and the starts balance, up to
    the episode that is open at either side. *)
Lemma alternates_balance (evs : list event) :
  forall a : bool,
    alternates a evs = true ->
    (ends evs + (if alternates a (evs ++ [speechEnd]) then 1 else 0)
     = starts evs + (if a then 1 else 0))%nat.
Proof.
  induction evs as [|e evs IH]; intros a Halt.
  - now destruct a.
  - destruct e; cbn [alternates app] in *;
      apply andb_prop in Halt; destruct Halt as [Ha Halt];
      specialize (IH _ Halt); destruct a; try discriminate;
      cbn [negb andb]; unfold starts, ends in *;
      cbn [List.filter List.length] in *; lia.
Qed.

(** In a run from the constructor every [speechStart] but the one of
    the episode that is still open has its [speechEnd]. *)
Lemma balance_run (cs : list call) :
  (ends (snd (run init cs))
   + (if isSpeechActive (fst (run init cs)) then 1 else 0)
   = starts (snd (run init cs)))%nat.
Proof.
  pose proof (alternates_balance (snd (run init cs)) false
                (alternates_run init cs)) as H.
  assert (Happ : alternates false (snd (run init cs) ++ [speechEnd]) =
                 alternates (isSpeechActive (fst (run init cs)))
                   [speechEnd])
    by exact (alternates_run_app init cs [speechEnd]).
  rewrite Happ in H.
  cbn [alternates] in H. rewrite andb_true_r in H.
  now rewrite Nat.add_0_r in H.
Qed.

(** C2, as stated, fails: [setVADEnabled(false)] ends an episode at
    once.  Here speech became active on the frame at 2300, which is
    also the last frame that was processed; the call emits [speechEnd]
    and is no frame, let alone one a second after [lastSpeechTime]. *)
Lemma speechEnd_forced_before_silenceTimeout :
  snd (run init (active_episode ++ [SetVADEnabled false]))
    = [speechStart; speechEnd] /\
  lastSpeechTime (fst (run init active_episode)) = Some 2300 /\
  ~ ends_only_after_silence (fst (run init active_episode))
      (SetVADEnabled false).
Proof.
  split; [vm_compute; reflexivity|]. split; [vm_compute; reflexivity|].
  intros H.
  destruct (H ltac:(vm_compute; left; reflexivity))
    as (audioData & currentTime & Hc & _).
  discriminate Hc.
Qed.

(** C2, amended: while an episode is open (speech is active, which
    implies that detection is enabled and [lastSpeechTime] is set), a
    call emits [speechEnd], and nothing else, exactly when it is a
    processed frame below the threshold whose time is [silenceTimeout]
    or more after [lastSpeechTime], or is [setVADEnabled(false)]; any
    other call emits nothing.  The call that emits it closes the
    episode, and a frame above the threshold moves [lastSpeechTime] to
    its own time.  In a run of calls from the constructor with a
    positive clock, [silenceTimeout] is 1000 ms, every state with an
    open episode is of that kind, the two events alternate, and every
    [speechStart] but the one of the open episode has had its
    [speechEnd]: an episode ends exactly once. *)
Theorem speechEnd_once_per_episode (cs : list call) (s : state)
    (c : call) :
  Forall clock_positive cs ->
  isSpeechActive s = true -> vadEnabled s = true ->
  JS.truthy (lastSpeechTime s) = true ->
  let ended :=
    match c with
    | Frame audioData currentTime =>
        negb (isSpeechDetected (smoothEnergy audioData s))
        && (vadSilenceTimeout s
            <=? currentTime - JS.to_number (lastSpeechTime s))
    | SetVADEnabled enabled => negb enabled
    | SetVADThreshold _ => false
    end in
  let s' := fst (step s c) in
  let reached := fst (run init cs) in
  let all := snd (run init cs) in
  (snd (step s c) = (if ended then [speechEnd] else []) /\
   isSpeechActive s' = negb ended /\
   lastSpeechTime s' =
     match c with
     | Frame audioData currentTime =>
         if isSpeechDetected (smoothEnergy audioData s)
         then Some currentTime
         else lastSpeechTime s
     | _ => lastSpeechTime s
     end /\
   (ended = true -> speechStartTime s' = None)) /\
  (vadSilenceTimeout reached = 1000 /\
   (isSpeechActive reached = true ->
    vadEnabled reached = true /\
    JS.truthy (lastSpeechTime reached) = true) /\
   alternates false all = true /\
   (ends all + (if isSpeechActive reached then 1 else 0))%nat
   = starts all).
Proof.
  intros Hcs Hactive Hen Hlast ended s' reached all. split.
  - subst s' ended. clear reached all Hcs.
    destruct c as [audio now | enabled | threshold]; cbn [step].
    + rewrite processVAD_enabled by assumption. cbv zeta. cbn [fst snd].
      pose proof (smoothEnergy_fields audio s) as Hsm; cbv zeta in Hsm.
      destruct Hsm as (_ & _ & _ & _ & Hsto & _ & Hlst & Hact & _).
      destruct (isSpeechDetected (smoothEnergy audio s)).
      * destruct (smoothEnergy audio s)
          as [en1 thr1 sf1 msd1 sto1 ce1 sst1 lst1 act1 h1 cap1].
        vad_simpl. subst act1 lst1 sto1.
        unfold onDetected; vad_simpl.
        destruct (negb (JS.truthy sst1)); vad_simpl;
          rewrite Hactive; vad_simpl; rewrite andb_false_r;
          (split; [reflexivity|]); (split; [reflexivity|]);
          (split; [reflexivity|discriminate]).
      * destruct (smoothEnergy audio s)
          as [en1 thr1 sf1 msd1 sto1 ce1 sst1 lst1 act1 h1 cap1].
        vad_simpl. subst act1 lst1 sto1.
        unfold onQuiet; vad_simpl. rewrite Hactive, Hlast.
        vad_simpl.
        destruct (vadSilenceTimeout s
                  <=? now - JS.to_number (lastSpeechTime s));
          vad_simpl;
          (split; [reflexivity|]);
          (split; [try reflexivity; exact Hactive|]);
          (split; [reflexivity|]); [reflexivity|discriminate].
    + destruct s as [en thr sf msd sto ce sst lst act h cap].
      vad_simpl. subst act. unfold setVADEnabled; vad_simpl.
      destruct enabled; vad_simpl;
        (split; [reflexivity|]); (split; [reflexivity|]);
        (split; [reflexivity|]); [discriminate|reflexivity].
    + split; [reflexivity|]. split; [now destruct s|].
      split; [now destruct s|discriminate].
  - subst reached all.
    destruct (configured_run init cs configured_init) as [_ _ _ Hto _].
    destruct (timed_run init cs timed_init Hcs) as [Hlast' Hen'].
    split; [exact Hto|]. split; [now split; auto|].
    split; [exact (alternates_run init cs)|]. apply balance_run.
Qed.

Lemma speechEnd_once_per_episode_witness :
  let cs := active_episode ++ [Frame quiet 2400] in
  let s := fst (run init cs) in
  snd (run init cs) = [speechStart] /\
  lastSpeechTime s = Some 2300 /\
  snd (step s (Frame quiet 3299)) = [] /\
  isSpeechActive (fst (step s (Frame quiet 3299))) = true /\
  snd (step s (Frame quiet 3300)) = [speechEnd] /\
  isSpeechActive (fst (step s (Frame quiet 3300))) = false /\
  speechStartTime (fst (step s (Frame quiet 3300))) = None /\
  snd (step s (Frame loud 3300)) = [] /\
  lastSpeechTime (fst (step s (Frame loud 3300))) = Some 3300 /\
  snd (step s (SetVADEnabled false)) = [speechEnd] /\
  (ends (snd (run init (cs ++ [Frame quiet 3300]))) =
   starts (snd (run init (cs ++ [Frame quiet 3300]))))%nat.
Proof.
  cbv zeta.
  assert (Hcs : Forall clock_positive
                  (active_episode ++ [Frame quiet 2400]))
    by (repeat constructor).
  assert (Hcs' : Forall clock_positive
                   ((active_episode ++ [Frame quiet 2400])
                    ++ [Frame quiet 3300]))
    by (repeat constructor).
  pose proof (speechEnd_once_per_episode _
                (fst (run init (active_episode ++ [Frame quiet 2400])))
                (Frame quiet 3299) Hcs
                ltac:(vm_compute; reflexivity)
                ltac:(vm_compute; reflexivity)
                ltac:(vm_compute; reflexivity))
    as ((Hearly & Hopen & _) & _).
  pose proof (speechEnd_once_per_episode _
                (fst (run init (active_episode ++ [Frame quiet 2400])))
                (Frame quiet 3300) Hcs'
                ltac:(vm_compute; reflexivity)
                ltac:(vm_compute; reflexivity)
                ltac:(vm_compute; reflexivity))
    as ((Hend & Hclosed & _ & Hreset) & (_ & _ & _ & Hbalance)).
  pose proof (speechEnd_once_per_episode _
                (fst (run init (active_episode ++ [Frame quiet 2400])))
                (Frame loud 3300) Hcs
                ltac:(vm_compute; reflexivity)
                ltac:(vm_compute; reflexivity)
                ltac:(vm_compute; reflexivity))
    as ((Hloud & _ & Hmoved & _) & _).
  pose proof (speechEnd_once_per_episode _
                (fst (run init (active_episode ++ [Frame quiet 2400])))
                (SetVADEnabled false) Hcs
                ltac:(vm_compute; reflexivity)
                ltac:(vm_compute; reflexivity)
                ltac:(vm_compute; reflexivity))
    as ((Hforced & _) & _).
  vm_compute in Hearly, Hopen, Hend, Hclosed, Hreset, Hbalance, Hloud,
    Hmoved, Hforced.
  split; [vm_compute; reflexivity|].
  split; [vm_compute; reflexivity|].
  split; [vm_compute; exact Hearly|].
  split; [vm_compute; exact Hopen|].
  split; [vm_compute; exact Hend|].
  split; [vm_compute; exact Hclosed|].
  split; [vm_compute; exact (Hreset eq_refl)|].
  split; [vm_compute; exact Hloud|].
  split; [vm_compute; exact Hmoved|].
  split; [vm_compute; exact Hforced|].
  vm_compute; exact Hbalance.
Defined.


(** *** Re-enabling detection *)

Lemma smoothEnergy_set_lastSpeechTime (audio : list float)
    (t : option Z) (s : state) :
  smoothEnergy audio (set_lastSpeechTime t s) =
  set_lastSpeechTime t (smoothEnergy audio s).
Proof.
  destruct s as [en thr sf msd sto ce sst lst act h cap].
  unfold smoothEnergy, updateEnergyHistory; vad_simpl.
  now destruct (_ <? _)%nat.
Qed.

Lemma isSpeechDetected_set_lastSpeechTime (t : option Z) (s : state) :
  isSpeechDetected (set_lastSpeechTime t s) = isSpeechDetected s.
Proof. now destruct s. Qed.

Lemma same_but_last_step (s s' : state) (c : call) :
  same_but_last s s' ->
  snd (step s c) = snd (step s' c) /\
  same_but_last (fst (step s c)) (fst (step s' c)).
Proof.
  intros [->|[Hact [t ->]]]; [split; [reflexivity | now left]|].
  destruct c as [audio now | enabled | threshold]; cbn [step].
  - destruct (vadEnabled s) eqn:Hon.
    2:{ rewrite !processVAD_disabled by (destruct s; assumption).
        split; [reflexivity | right; split; eauto]. }
    rewrite !processVAD_enabled by (destruct s; assumption).
    cbv zeta; cbn [fst snd].
    rewrite smoothEnergy_set_lastSpeechTime,
      isSpeechDetected_set_lastSpeechTime.
    pose proof (smoothEnergy_fields audio s) as Hsm; cbv zeta in Hsm.
    destruct Hsm as (_ & _ & _ & _ & _ & _ & _ & Hact1 & _).
    rewrite Hact in Hact1.
    destruct (isSpeechDetected _).
    + destruct (smoothEnergy audio s)
        as [en1 thr1 sf1 msd1 sto1 ce1 sst1 lst1 act1 h1 cap1].
      unfold onDetected; vad_simpl. subst act1.
      vad_cases; split; auto; now left.
    + destruct (smoothEnergy audio s)
        as [en1 thr1 sf1 msd1 sto1 ce1 sst1 lst1 act1 h1 cap1].
      unfold onQuiet; vad_simpl. subst act1. vad_simpl.
      split; [reflexivity | right; split; eauto].
  - destruct s as [en thr sf msd sto ce sst lst act h cap].
    vad_simpl. subst act. unfold setVADEnabled; vad_simpl.
    rewrite andb_false_r. vad_simpl.
    split; [reflexivity | right; split; eauto].
  - split; [reflexivity | right; split; [now destruct s|]].
    exists t. now destruct s.
Qed.

Lemma same_but_last_run (s s' : state) (cs : list call) :
  same_but_last s s' -> snd (run s cs) = snd (run s' cs).
Proof.
  revert s s'; induction cs as [|c cs IH]; intros s s' HR; simpl; auto.
  destruct (same_but_last_step s s' c HR) as [Hev HR'].
  destruct (step s c) as [s1 evs1], (step s' c) as [s1' evs1'];
    simpl in *; subst.
  specialize (IH s1 s1' HR').
  destruct (run s1 cs), (run s1' cs); simpl in *; now subst.
Qed.

(** C8, as stated, fails: after an episode that was ended by disabling
    detection, re-enabling leaves [lastSpeechTime] at the time of the
    last speech frame. *)
Lemma reenable_does_not_reset_timers :
  ~ reenable_resets_timers
      (fst (run init (active_episode ++ [SetVADEnabled false]))).
Proof. vm_compute. intros [_ H]. discriminate H. Qed.

(** C8, amended: [setVADEnabled(true)] sets [vadEnabled] and nothing
    else, and emits no event.  After a disable followed by a re-enable
    speech is inactive, [speechStartTime] is null when speech was active
    at the disable, and [lastSpeechTime] has kept its value; whatever
    that value is, it has no influence on the events of later calls. *)
Theorem reenable_only_sets_flag (s : state) (t : option Z)
    (cs : list call) :
  let s1 := fst (setVADEnabled false s) in
  let s2 := fst (setVADEnabled true s1) in
  (forall x, setVADEnabled true x = (set_vadEnabled true x, [])) /\
  lastSpeechTime s2 = lastSpeechTime s /\
  isSpeechActive s2 = false /\
  (isSpeechActive s = true -> speechStartTime s2 = None) /\
  snd (run (set_lastSpeechTime t s2) cs) = snd (run s2 cs).
Proof.
  intros s1 s2.
  assert (Hinactive : isSpeechActive s2 = false).
  { subst s1 s2. destruct s as [en thr sf msd sto ce sst lst act h cap].
    unfold setVADEnabled; vad_simpl. now destruct act. }
  split; [reflexivity|].
  split; [|split; [exact Hinactive|split]].
  - subst s1 s2. destruct s as [en thr sf msd sto ce sst lst act h cap].
    unfold setVADEnabled; vad_simpl. now destruct act.
  - intros Ha. subst s1 s2.
    destruct s as [en thr sf msd sto ce sst lst act h cap].
    vad_simpl. subst act. reflexivity.
  - symmetry. apply same_but_last_run. right. split; eauto.
Qed.

Lemma reenable_only_sets_flag_witness :
  let s := fst (run init active_episode) in
  let s2 := fst (setVADEnabled true (fst (setVADEnabled false s))) in
  speechStartTime s2 = None /\
  snd (run (set_lastSpeechTime None s2) [Frame loud 9000; Frame loud 9400])
  = snd (run s2 [Frame loud 9000; Frame loud 9400]).
Proof.
  pose proof (reenable_only_sets_flag (fst (run init active_episode)) None
                [Frame loud 9000; Frame loud 9400]) as H.
  destruct H as (_ & _ & _ & Hstart & Hrun).
  split; [apply Hstart; vm_compute; reflexivity | exact Hrun].
Defined.

End VADTheorems.

(** ** The audio system: fades and ducking *)

Module AudioFacts.

Import AudioSystem.

#[local] Open Scope nat_scope.

(** Projections of records that are given by their fields. *)
Ltac audio_simpl :=
  unfold write_volume, pause, volume_of, gain_of, set_currentAudio,
    set_demoAudio, set_isVADMuted, set_originalVolume, set_originalGain,
    set_elements, set_demos, set_intervals in *;
  cbn [volume currentAudio demoAudio isVADMuted originalVolume
       originalGain vadDuckingFactor vadFadeTime elements demos intervals
       iv_element iv_startVolume iv_volumeDiff iv_targetVolume
       iv_currentStep iv_stepTime negb] in *.

Lemma alter_volume_twice (a : nat) (v w : float)
    (els : list AudioElement) :
  alter (with_volume v) a (alter (with_volume w) a els) =
  alter (with_volume v) a els.
Proof.
  rewrite list_alter_alter_eq.
  apply list_alter_ext; [intros [? ? ? ?] _|]; reflexivity.
Qed.

Lemma write_volume_twice (a : nat) (v w : float) (s : state) :
  write_volume a v (write_volume a w s) = write_volume a v s.
Proof.
  destruct s; audio_simpl. now rewrite alter_volume_twice.
Qed.

Lemma volume_of_write_volume (a : nat) (v : float) (s : state) :
  a < List.length (elements s) ->
  volume_of a (write_volume a v s) = Some v.
Proof.
  intros Ha. destruct s; audio_simpl.
  rewrite list_lookup_alter_eq.
  destruct (lookup_lt_is_Some_2 _ _ Ha) as [el ->]. reflexivity.
Qed.

Lemma volume_of_lt (a : nat) (v : float) (s : state) :
  volume_of a s = Some v -> a < List.length (elements s).
Proof.
  unfold volume_of. intros H.
  destruct (elements s !! a) eqn:E; [|discriminate].
  now apply lookup_lt_Some in E.
Qed.

(** One firing before the last step. *)
Lemma fire_step (id : nat) (iv : Interval) (s : state) :
  intervals s !! id = Some (Some iv) ->
  S (iv_currentStep iv) < steps ->
  fire id s =
  set_intervals
    (<[id := Some (mkInterval (iv_element iv) (iv_startVolume iv)
                     (iv_volumeDiff iv) (iv_targetVolume iv)
                     (S (iv_currentStep iv)) (iv_stepTime iv))]>
       (intervals s))
    (write_volume (iv_element iv)
       (iv_startVolume iv
        + iv_volumeDiff iv
          * (num_of_nat (S (iv_currentStep iv)) / num_of_nat steps))%float
       s).
Proof.
  intros Hiv Hlt. unfold fire. rewrite Hiv.
  destruct (Nat.leb_spec steps (S (iv_currentStep iv))); [lia|].
  destruct s; reflexivity.
Qed.

(** The last firing: the target is written and the timer is cleared. *)
Lemma fire_last (id : nat) (iv : Interval) (s : state) :
  intervals s !! id = Some (Some iv) ->
  steps <= S (iv_currentStep iv) ->
  fire id s =
  set_intervals (<[id := None]> (intervals s))
    (write_volume (iv_element iv) (iv_targetVolume iv) s).
Proof.
  intros Hiv Hge. unfold fire. rewrite Hiv.
  destruct (Nat.leb_spec steps (S (iv_currentStep iv))); [|lia].
  rewrite <- (write_volume_twice (iv_element iv) (iv_targetVolume iv)
                (iv_startVolume iv
                 + iv_volumeDiff iv
                   * (num_of_nat (S (iv_currentStep iv))
                      / num_of_nat steps))%float s).
  destruct s; reflexivity.
Qed.

(** A fade that is left alone runs to its end: after the remaining
    firings the element is at the target and the timer is cleared. *)
Lemma fade_completes (id n : nat) :
  forall (s : state) (iv : Interval),
    intervals s !! id = Some (Some iv) ->
    iv_currentStep iv + n = steps ->
    0 < n ->
    fires (replicate n id) s =
    set_intervals (<[id := None]> (intervals s))
      (write_volume (iv_element iv) (iv_targetVolume iv) s).
Proof.
  induction n as [|n IH]; intros s iv Hiv Hn Hpos; [lia|].
  cbn [replicate fires fold_left].
  destruct n as [|n].
  - cbn [replicate fold_left]. apply fire_last; [exact Hiv | lia].
  - rewrite (fire_step id iv s Hiv) by lia.
    pose proof (lookup_lt_Some _ _ _ Hiv) as Hlen.
    set (iv' := mkInterval _ _ _ _ _ _).
    set (s1 := set_intervals _ _).
    assert (Hiv' : intervals s1 !! id = Some (Some iv')).
    { subst s1. destruct s; audio_simpl.
      now apply list_lookup_insert_eq. }
    change (fold_left (fun acc id0 => fire id0 acc) (replicate (S n) id) s1)
      with (fires (replicate (S n) id) s1).
    rewrite (IH s1 iv' Hiv') by (subst iv'; audio_simpl; lia).
    subst s1 iv'. destruct s; audio_simpl.
    now rewrite list_insert_insert_eq, alter_volume_twice.
Qed.

(** A firing writes to the elements and the timers only. *)
Lemma fire_fields (id : nat) (s : state) :
  let s' := fire id s in
  volume s' = volume s /\ currentAudio s' = currentAudio s /\
  demoAudio s' = demoAudio s /\ isVADMuted s' = isVADMuted s /\
  originalVolume s' = originalVolume s /\
  originalGain s' = originalGain s /\
  vadDuckingFactor s' = vadDuckingFactor s /\
  vadFadeTime s' = vadFadeTime s /\ demos s' = demos s.
Proof.
  unfold fire. destruct (intervals s !! id) as [[iv|]|];
    [|repeat split..].
  destruct (steps <=? S (iv_currentStep iv)); destruct s;
    repeat split.
Qed.

Lemma fires_fields (ids : list nat) (s : state) :
  let s' := fires ids s in
  volume s' = volume s /\ currentAudio s' = currentAudio s /\
  demoAudio s' = demoAudio s /\ isVADMuted s' = isVADMuted s /\
  originalVolume s' = originalVolume s /\
  originalGain s' = originalGain s /\
  vadDuckingFactor s' = vadDuckingFactor s /\
  vadFadeTime s' = vadFadeTime s /\ demos s' = demos s.
Proof.
  revert s; induction ids as [|id ids IH]; intros s; cbn; [repeat split|].
  specialize (IH (fire id s)); cbv zeta in IH.
  pose proof (fire_fields id s) as H; cbv zeta in H.
  unfold fires in IH.
  destruct IH as (-> & -> & -> & -> & -> & -> & -> & -> & ->).
  exact H.
Qed.

(** [fadeGain] writes to the demo audio only. *)
Lemma fadeGain_fields (d : nat) (g t now : float) (s : state) :
  let s' := fadeGain d g t now s in
  volume s' = volume s /\ currentAudio s' = currentAudio s /\
  demoAudio s' = demoAudio s /\ isVADMuted s' = isVADMuted s /\
  originalVolume s' = originalVolume s /\
  originalGain s' = originalGain s /\
  vadDuckingFactor s' = vadDuckingFactor s /\
  vadFadeTime s' = vadFadeTime s /\ elements s' = elements s /\
  intervals s' = intervals s.
Proof.
  unfold fadeGain. destruct (demos s !! d); destruct s; repeat split.
Qed.

(** The duck of a playing track: the snapshot is taken and the fade to
    the ducked volume is registered. *)
Lemma duck_track (now : float) (s : state) (a : nat) (g : float) :
  isVADMuted s = false -> currentAudio s = Some a ->
  volume_of a s = Some g ->
  let s' := onSpeechDetected now s in
  isVADMuted s' = true /\ currentAudio s' = Some a /\
  originalVolume s' = Some g /\ elements s' = elements s /\
  intervals s' =
    intervals s ++
    [Some (mkInterval a g (g * vadDuckingFactor s - g)
             (g * vadDuckingFactor s) 0
             (vadFadeTime s / num_of_nat steps))%float] /\
  vadDuckingFactor s' = vadDuckingFactor s /\
  vadFadeTime s' = vadFadeTime s /\ volume s' = volume s.
Proof.
  intros Hm Ha Hv. unfold onSpeechDetected. rewrite Hm.
  destruct s as [vol cur demo muted ov og df ft els ds ivs].
  audio_simpl. subst muted cur. rewrite Hv.
  unfold fadeVolume; audio_simpl. rewrite Hv; audio_simpl.
  destruct demo as [d|]; [|repeat split].
  destruct (gain_value <$> ds !! d) as [g'|]; [|repeat split].
  unfold fadeGain; audio_simpl.
  destruct (ds !! d); repeat split.
Qed.

(** The restore of a ducked track: the fade back to the snapshot is
    registered. *)
Lemma restore_track (now : float) (s : state) (a : nat) (g v : float) :
  isVADMuted s = true -> currentAudio s = Some a ->
  originalVolume s = Some g -> volume_of a s = Some v ->
  let s' := onSpeechEnded now s in
  isVADMuted s' = false /\ currentAudio s' = Some a /\
  originalVolume s' = Some g /\ elements s' = elements s /\
  intervals s' =
    intervals s ++
    [Some (mkInterval a v (g - v) g 0
             (vadFadeTime s / num_of_nat steps))%float] /\
  vadDuckingFactor s' = vadDuckingFactor s /\
  vadFadeTime s' = vadFadeTime s /\ volume s' = volume s.
Proof.
  intros Hm Ha Ho Hv. unfold onSpeechEnded. rewrite Hm.
  destruct s as [vol cur demo muted ov og df ft els ds ivs].
  audio_simpl. subst muted cur ov.
  unfold fadeVolume; audio_simpl. rewrite Hv; audio_simpl.
  destruct demo as [d|], og as [g'|]; try (repeat split; fail).
  unfold fadeGain; audio_simpl.
  destruct (ds !! d); repeat split.
Qed.

(** A fade registered last, run to its end. *)
Lemma fade_registered_completes (s : state) (ivs : list (option Interval))
    (iv : Interval) :
  intervals s = ivs ++ [Some iv] ->
  iv_currentStep iv = 0 ->
  fires (replicate steps (List.length ivs)) s =
  set_intervals (ivs ++ [None])
    (write_volume (iv_element iv) (iv_targetVolume iv) s).
Proof.
  intros Hivs Hstep.
  rewrite (fade_completes (List.length ivs) steps s iv).
  - rewrite Hivs.
    replace (List.length ivs) with (List.length ivs + 0) by lia.
    now rewrite insert_app_r.
  - rewrite Hivs. now apply list_lookup_middle.
  - rewrite Hstep. reflexivity.
  - unfold steps; lia.
Qed.

(** After [onSpeechDetected] the system is ducked. *)
Lemma onSpeechDetected_muted (now : float) (s : state) :
  isVADMuted (onSpeechDetected now s) = true.
Proof.
  unfold onSpeechDetected. destruct (isVADMuted s) eqn:Hm; [exact Hm|].
  destruct s as [vol cur demo muted ov og df ft els ds ivs].
  audio_simpl.
  destruct cur as [a|]; audio_simpl.
  - destruct (el_volume <$> els !! a) as [v|] eqn:Hv; audio_simpl.
    + unfold fadeVolume; audio_simpl. rewrite Hv; audio_simpl.
      destruct demo as [d|]; [|reflexivity].
      destruct (gain_value <$> ds !! d); [|reflexivity].
      unfold fadeGain; audio_simpl. now destruct (ds !! d).
    + destruct demo as [d|]; [|reflexivity].
      destruct (gain_value <$> ds !! d); [|reflexivity].
      unfold fadeGain; audio_simpl. now destruct (ds !! d).
  - destruct demo as [d|]; [|reflexivity].
    destruct (gain_value <$> ds !! d); [|reflexivity].
    unfold fadeGain; audio_simpl. now destruct (ds !! d).
Qed.

(** The duck of a demo tone: the snapshot of its gain is taken. *)
Lemma duck_demo (now : float) (s : state) (d : nat) (g : float) :
  isVADMuted s = false -> demoAudio s = Some d ->
  gain_of d s = Some g ->
  originalGain (onSpeechDetected now s) = Some g.
Proof.
  intros Hm Hd Hg. unfold onSpeechDetected. rewrite Hm.
  destruct s as [vol cur demo muted ov og df ft els ds ivs].
  audio_simpl. subst muted demo.
  destruct cur as [a|]; audio_simpl.
  - destruct (el_volume <$> els !! a) as [v|] eqn:Hv; audio_simpl.
    + unfold fadeVolume; audio_simpl. rewrite Hv; audio_simpl.
      rewrite Hg. unfold fadeGain; audio_simpl. now destruct (ds !! d).
    + rewrite Hg. unfold fadeGain; audio_simpl. now destruct (ds !! d).
  - rewrite Hg. unfold fadeGain; audio_simpl. now destruct (ds !! d).
Qed.

(** A timer that is not registered does not fire. *)
Lemma fires_missing (id n : nat) (s : state) :
  intervals s !! id = None -> fires (replicate n id) s = s.
Proof.
  intros Hid.
  assert (Hfire : fire id s = s) by (unfold fire; now rewrite Hid).
  induction n as [|n IH]; [reflexivity|].
  cbn [replicate fires fold_left]. rewrite Hfire. exact IH.
Qed.

(** The tone with a ramp scheduled on its gain, and what it settles
    to. *)
Lemma settle_ramp (dm : DemoAudio) (target now ft : float) :
  settle
    (mkDemo (frequency dm) (started dm) (gain_value dm)
       (gain_events dm ++
        [SetValueAtTime (gain_value dm) now;
         LinearRampToValueAtTime target (now + ft / 1000)%float]))
  = mkDemo (frequency dm) (started dm) target [].
Proof.
  unfold settle. cbn [frequency started gain_value gain_events].
  rewrite map_app. cbn [map automation_value].
  change [gain_value dm; target] with ([gain_value dm] ++ [target]).
  now rewrite app_assoc, last_last.
Qed.

(** The fade registered last in [ivs] is run to its end. *)
Ltac fade_done ivs :=
  match goal with
  | |- context [fires (replicate steps (List.length ivs)) ?s'] =>
      rewrite (fade_registered_completes s' ivs _ eq_refl eq_refl)
  end.

(** The duck with its fades run to the end, field by field. *)
Lemma duck_settled (now vol : float) (cur demo : option nat)
    (ov og : option float) (df ft : float) (els : list AudioElement)
    (ds : list DemoAudio) (ivs : list (option Interval)) :
  render
    (fires (replicate steps (List.length ivs))
       (onSpeechDetected now
          (mkState vol cur demo false ov og df ft els ds ivs)))
  = mkState vol cur demo true
      (match cur with
       | Some a => el_volume <$> els !! a
       | None => ov
       end)
      (match demo with
       | Some d => gain_value <$> ds !! d
       | None => og
       end)
      df ft
      (match cur with
       | Some a =>
           match els !! a with
           | Some el => alter (with_volume (el_volume el * df)%float) a els
           | None => els
           end
       | None => els
       end)
      (settle <$>
       match demo with
       | Some d =>
           match ds !! d with
           | Some dm =>
               <[d := mkDemo (frequency dm) (started dm) (gain_value dm)
                        (gain_events dm ++
                         [SetValueAtTime (gain_value dm) now;
                          LinearRampToValueAtTime (gain_value dm * df)
                            (now + ft / 1000)])%float]> ds
           | None => ds
           end
       | None => ds
       end)
      (match cur with
       | Some a =>
           match els !! a with
           | Some _ => ivs ++ [None]
           | None => ivs
           end
       | None => ivs
       end).
Proof.
  unfold onSpeechDetected. audio_simpl.
  assert (Hmiss : forall s' : state,
            intervals s' = ivs ->
            fires (replicate steps (List.length ivs)) s' = s').
  { intros s' Hs'. apply fires_missing. rewrite Hs'.
    apply lookup_ge_None_2. lia. }
  destruct cur as [a|]; audio_simpl.
  - destruct (els !! a) as [el|] eqn:Hel; cbn [fmap option_fmap option_map].
    + unfold fadeVolume; audio_simpl. rewrite Hel.
      cbn [fmap option_fmap option_map]. audio_simpl.
      destruct demo as [d|]; audio_simpl.
      * destruct (ds !! d) as [dm|] eqn:Hdm;
          cbn [fmap option_fmap option_map]; audio_simpl.
        -- unfold fadeGain; audio_simpl. rewrite Hdm. audio_simpl.
           fade_done ivs.
           reflexivity.
        -- fade_done ivs.
           reflexivity.
      * fade_done ivs.
        reflexivity.
    + destruct demo as [d|]; audio_simpl.
      * destruct (ds !! d) as [dm|] eqn:Hdm;
          cbn [fmap option_fmap option_map]; audio_simpl.
        -- unfold fadeGain; audio_simpl. rewrite Hdm. audio_simpl.
           now rewrite Hmiss.
        -- now rewrite Hmiss.
      * now rewrite Hmiss.
  - destruct demo as [d|]; audio_simpl.
    + destruct (ds !! d) as [dm|] eqn:Hdm;
        cbn [fmap option_fmap option_map]; audio_simpl.
      * unfold fadeGain; audio_simpl. rewrite Hdm. audio_simpl.
        now rewrite Hmiss.
      * now rewrite Hmiss.
    + now rewrite Hmiss.
Qed.

(** The restore with its fades run to the end, field by field. *)
Lemma restore_settled (now vol : float) (cur demo : option nat)
    (ov og : option float) (df ft : float) (els : list AudioElement)
    (ds : list DemoAudio) (ivs : list (option Interval)) :
  render
    (fires (replicate steps (List.length ivs))
       (onSpeechEnded now
          (mkState vol cur demo true ov og df ft els ds ivs)))
  = mkState vol cur demo false ov og df ft
      (match cur, ov with
       | Some a, Some v =>
           match els !! a with
           | Some _ => alter (with_volume v) a els
           | None => els
           end
       | _, _ => els
       end)
      (settle <$>
       match demo, og with
       | Some d, Some g =>
           match ds !! d with
           | Some dm =>
               <[d := mkDemo (frequency dm) (started dm) (gain_value dm)
                        (gain_events dm ++
                         [SetValueAtTime (gain_value dm) now;
                          LinearRampToValueAtTime g
                            (now + ft / 1000)])%float]> ds
           | None => ds
           end
       | _, _ => ds
       end)
      (match cur, ov with
       | Some a, Some v =>
           match els !! a with
           | Some _ => ivs ++ [None]
           | None => ivs
           end
       | _, _ => ivs
       end).
Proof.
  unfold onSpeechEnded. audio_simpl.
  assert (Hmiss : forall s' : state,
            intervals s' = ivs ->
            fires (replicate steps (List.length ivs)) s' = s').
  { intros s' Hs'. apply fires_missing. rewrite Hs'.
    apply lookup_ge_None_2. lia. }
  destruct cur as [a|], ov as [v|]; audio_simpl.
  2-4: (destruct demo as [d|], og as [g|]; audio_simpl;
        try (unfold fadeGain; audio_simpl; destruct (ds !! d) as [dm|]);
        now rewrite Hmiss).
  destruct (els !! a) as [el|] eqn:Hel.
  - unfold fadeVolume; audio_simpl. rewrite Hel.
    cbn [fmap option_fmap option_map]. audio_simpl.
    destruct demo as [d|], og as [g|]; audio_simpl;
      try (unfold fadeGain; audio_simpl; destruct (ds !! d) as [dm|]);
      fade_done ivs;
      reflexivity.
  - unfold fadeVolume; audio_simpl. rewrite Hel.
    cbn [fmap option_fmap option_map].
    destruct demo as [d|], og as [g|]; audio_simpl;
      try (unfold fadeGain; audio_simpl; destruct (ds !! d) as [dm|]);
      now rewrite Hmiss.
Qed.

End AudioFacts.

(** ** The audio system: theorems *)

Module AudioTheorems.

Import AudioSystem Spec Scenario AudioFacts.

#[local] Open Scope nat_scope.

(** *** Idempotence of ducking *)

(** C5: [onSpeechDetected] while already ducked returns the state as it
    is: no gain, timer or snapshot changes; [onSpeechEnded] while not
    ducked does the same.  After a first [onSpeechDetected], and whatever
    timers fire afterwards, a second one changes nothing, and the
    snapshots are the volume of the track and the gain of the tone as
    they were before the first. *)
Theorem ducking_idempotent (s : state) (now now' : float)
    (ids : list nat) :
  (isVADMuted s = true -> onSpeechDetected now s = s) /\
  (isVADMuted s = false -> onSpeechEnded now s = s) /\
  let s1 := fires ids (onSpeechDetected now s) in
  onSpeechDetected now' s1 = s1 /\
  (forall (a : nat) (g : float),
      isVADMuted s = false -> currentAudio s = Some a ->
      volume_of a s = Some g ->
      originalVolume s1 = Some g /\
      originalVolume (onSpeechDetected now' s1) = Some g) /\
  (forall (d : nat) (g : float),
      isVADMuted s = false -> demoAudio s = Some d ->
      gain_of d s = Some g ->
      originalGain s1 = Some g /\
      originalGain (onSpeechDetected now' s1) = Some g).
Proof.
  split; [|split].
  - intros Hm. unfold onSpeechDetected. now rewrite Hm.
  - intros Hm. unfold onSpeechEnded. now rewrite Hm.
  - intros s1.
    pose proof (fires_fields ids (onSpeechDetected now s)) as Hf.
    cbv zeta in Hf. fold s1 in Hf.
    destruct Hf as (_ & _ & _ & Hm1 & Ho1 & Hg1 & _).
    rewrite onSpeechDetected_muted in Hm1.
    assert (Hid : onSpeechDetected now' s1 = s1).
    { unfold onSpeechDetected at 1. now rewrite Hm1. }
    rewrite Hid. split; [reflexivity|]. split.
    + intros a g Hm Ha Hv.
      destruct (duck_track now s a g Hm Ha Hv) as (_ & _ & Ho & _).
      split; congruence.
    + intros d g Hm Hd Hg.
      pose proof (duck_demo now s d g Hm Hd Hg) as Ho.
      split; congruence.
Qed.

Lemma ducking_idempotent_witness :
  let s := playDemoTrack "focus" (playTrack rain true init) in
  let s1 := fires [0; 0; 0] (onSpeechDetected 0 s) in
  onSpeechEnded 0 s = s /\
  onSpeechDetected 7 s1 = s1 /\
  originalVolume (onSpeechDetected 7 s1) = Some 0.5%float /\
  originalGain (onSpeechDetected 7 s1) = Some (0.5 * 0.1)%float.
Proof.
  pose proof (ducking_idempotent
                (playDemoTrack "focus" (playTrack rain true init)) 0 7
                [0; 0; 0])
    as (_ & Hend & Hid & Htrack & Hdemo).
  split; [apply Hend; vm_compute; reflexivity|].
  split; [exact Hid|]. split.
  - exact (proj2 (Htrack 0 0.5%float ltac:(vm_compute; reflexivity)
                    ltac:(vm_compute; reflexivity)
                    ltac:(vm_compute; reflexivity))).
  - exact (proj2 (Hdemo 0 (0.5 * 0.1)%float ltac:(vm_compute; reflexivity)
                    ltac:(vm_compute; reflexivity)
                    ltac:(vm_compute; reflexivity))).
Defined.

(** *** Duck and restore *)

(** C6: for the sinks that are playing, the track at volume [g] and the
    tone at gain [h], the duck with its fades run to the end leaves the
    track at [g * vadDuckingFactor] and the tone at
    [h * vadDuckingFactor], with [g] and [h] as the snapshots, and the
    restore with its fades run to the end leaves the track at [g] and
    the tone at [h] again.  A fade of the track runs to its end by the
    firings of its timer, a fade of the tone by the audio thread. *)
Theorem duck_restore_roundtrip (s : state) (now now' : float) :
  isVADMuted s = false ->
  let factor := vadDuckingFactor s in
  let s1 :=
    render
      (fires (replicate steps (List.length (intervals s)))
         (onSpeechDetected now s)) in
  let s2 :=
    render
      (fires (replicate steps (List.length (intervals s1)))
         (onSpeechEnded now' s1)) in
  playing_volume s1 = (fun g => (g * factor)%float) <$> playing_volume s /\
  playing_gain s1 = (fun h => (h * factor)%float) <$> playing_gain s /\
  isVADMuted s1 = true /\
  originalVolume s1 =
    match currentAudio s with
    | Some _ => playing_volume s
    | None => originalVolume s
    end /\
  originalGain s1 =
    match demoAudio s with
    | Some _ => playing_gain s
    | None => originalGain s
    end /\
  playing_volume s2 = playing_volume s /\
  playing_gain s2 = playing_gain s /\
  isVADMuted s2 = false.
Proof.
  intros Hm.
  destruct s as [vol cur demo muted ov og df ft els ds ivs].
  cbn [isVADMuted] in Hm. subst muted. cbv zeta.
  cbn [vadDuckingFactor intervals].
  rewrite duck_settled. cbn [intervals].
  rewrite restore_settled.
  unfold playing_volume, playing_gain, volume_of, gain_of.
  cbn [currentAudio demoAudio isVADMuted originalVolume originalGain
       elements demos].
  destruct cur as [a|]; [destruct (els !! a) as [el|] eqn:Hel|];
    (destruct demo as [d|]; [destruct (ds !! d) as [dm|] eqn:Hdm|]);
    cbn [fmap option_fmap option_map];
    repeat first
      [ rewrite list_lookup_alter_eq
      | rewrite alter_volume_twice
      | rewrite list_lookup_fmap
      | rewrite list_lookup_insert_eq by
          (rewrite ?length_fmap, ?length_insert;
           eapply lookup_lt_Some; eassumption)
      | rewrite list_insert_insert_eq
      | rewrite Hel
      | rewrite Hdm
      | rewrite settle_ramp
      | progress cbn [fmap option_fmap option_map el_volume with_volume
                      gain_value frequency started gain_events app] ];
    repeat split.
Qed.

Lemma duck_restore_roundtrip_witness :
  let s := playTrack rain true (playDemoTrack "piano" init) in
  let s1 :=
    render
      (fires (replicate steps (List.length (intervals s)))
         (onSpeechDetected 0 s)) in
  let s2 :=
    render
      (fires (replicate steps (List.length (intervals s1)))
         (onSpeechEnded 2 s1)) in
  playing_volume s = Some 0.5%float /\
  playing_gain s = Some (0.5 * 0.1)%float /\
  playing_volume s1 = Some (0.5 * 0.2)%float /\
  playing_gain s1 = Some (0.5 * 0.1 * 0.2)%float /\
  originalVolume s1 = Some 0.5%float /\
  originalGain s1 = Some (0.5 * 0.1)%float /\
  playing_volume s2 = Some 0.5%float /\
  playing_gain s2 = Some (0.5 * 0.1)%float /\
  isVADMuted s2 = false.
Proof.
  cbv zeta.
  pose proof (duck_restore_roundtrip
                (playTrack rain true (playDemoTrack "piano" init)) 0 2
                ltac:(vm_compute; reflexivity))
    as (Hv1 & Hg1 & _ & Hov & Hog & Hv2 & Hg2 & Hm2).
  vm_compute in Hv1, Hg1, Hov, Hog, Hv2, Hg2, Hm2.
  split; [vm_compute; reflexivity|].
  split; [vm_compute; reflexivity|].
  split; [vm_compute; exact Hv1|].
  split; [vm_compute; exact Hg1|].
  split; [vm_compute; exact Hov|].
  split; [vm_compute; exact Hog|].
  split; [vm_compute; exact Hv2|].
  split; [vm_compute; exact Hg2|].
  vm_compute; exact Hm2.
Defined.


(** *** A sink attached while ducked *)

(** C9, as stated, fails: with a track ducked from 0.5 to 0.1, the track
    that [playTrack] attaches starts at 0.5, and the tone that
    [playDemoTrack] attaches starts at 0.05, not at a fifth of these. *)
Lemma attached_sink_is_not_ducked :
  ~ attaches_ducked (volume ducked) ducked
      (playing_volume (playTrack piano true ducked)) /\
  ~ attaches_ducked (volume ducked * 0.1)%float ducked
      (playing_gain (playDemoTrack "focus" ducked)).
Proof.
  split; intros H; specialize (H eq_refl).
  - apply (f_equal (fun o => match o with
                             | Some x => PrimFloat.ltb x 0.3
                             | None => false
                             end)) in H.
    vm_compute in H; discriminate H.
  - apply (f_equal (fun o => match o with
                             | Some x => PrimFloat.ltb x 0.03
                             | None => false
                             end)) in H.
    vm_compute in H; discriminate H.
Qed.

(** C9, amended: while ducked, [playTrack] with a usable preview makes a
    new element current at the volume setting, not at the ducked volume;
    [isVADMuted], the snapshots and the timers are as before, and the
    element that was current is paused, its volume as it was.
    [playDemoTrack] stores a new tone at a tenth of the volume setting,
    with nothing scheduled on its gain, and with [isVADMuted], the
    snapshots and the timers as before. *)
Theorem attach_while_ducked (s : state) (t : track) (played : bool)
    (style : string) :
  isVADMuted s = true -> truthy_url (audioUrl t) = true ->
  let s' := playTrack t played s in
  let s'' := playDemoTrack style s in
  (currentAudio s' = Some (List.length (elements s)) /\
   playing_volume s' = Some (volume s) /\
   isVADMuted s' = true /\
   originalVolume s' = originalVolume s /\
   originalGain s' = originalGain s /\
   intervals s' = intervals s /\
   forall a el, currentAudio s = Some a -> elements s !! a = Some el ->
                elements s' !! a = Some (with_paused true el)) /\
  (demoAudio s'' = Some (List.length (demos s)) /\
   playing_gain s'' = Some (volume s * 0.1)%float /\
   isVADMuted s'' = true /\
   originalVolume s'' = originalVolume s /\
   originalGain s'' = originalGain s /\
   intervals s'' = intervals s /\
   gain_events <$> demos s'' !! List.length (demos s) = Some [] /\
   forall d, d < List.length (demos s) -> demos s'' !! d = demos s !! d).
Proof.
  intros Hm Hurl s' s''. split.
  - subst s'. unfold playTrack, playing_volume.
    destruct (audioUrl t) as [url|]; [|discriminate].
    rewrite Hurl.
    destruct s as [vol cur demo muted ov og df ft els ds ivs].
    audio_simpl. subst muted.
    destruct cur as [a0|]; audio_simpl.
    + rewrite length_alter.
      repeat split.
      * replace (List.length els) with
          (List.length (alter (with_paused true) a0 els))
          by apply length_alter.
        now rewrite list_lookup_middle.
      * intros a el [= ->] Hel.
        rewrite lookup_app_l
          by (rewrite length_alter; eapply lookup_lt_Some; eauto).
        now rewrite list_lookup_alter_eq, Hel.
    + repeat split.
      * now rewrite list_lookup_middle.
      * intros a el [=].
  - subst s''. unfold playDemoTrack, playing_gain.
    destruct s as [vol cur demo muted ov og df ft els ds ivs].
    audio_simpl. subst muted.
    repeat split.
    + now rewrite list_lookup_middle.
    + now rewrite list_lookup_middle.
    + intros d Hd. now rewrite lookup_app_l.
Qed.

Lemma attach_while_ducked_witness :
  let s' := playTrack piano true ducked in
  let s'' := playDemoTrack "focus" ducked in
  (currentAudio s' = Some (List.length (elements ducked)) /\
   playing_volume s' = Some (volume ducked) /\
   isVADMuted s' = true /\
   originalVolume s' = originalVolume ducked /\
   originalGain s' = originalGain ducked /\
   intervals s' = intervals ducked /\
   forall a el, currentAudio ducked = Some a ->
                elements ducked !! a = Some el ->
                elements s' !! a = Some (with_paused true el)) /\
  (demoAudio s'' = Some (List.length (demos ducked)) /\
   playing_gain s'' = Some (volume ducked * 0.1)%float /\
   isVADMuted s'' = true /\
   originalVolume s'' = originalVolume ducked /\
   originalGain s'' = originalGain ducked /\
   intervals s'' = intervals ducked /\
   gain_events <$> demos s'' !! List.length (demos ducked) = Some [] /\
   forall d, d < List.length (demos ducked) ->
             demos s'' !! d = demos ducked !! d).
Proof.
  exact (attach_while_ducked ducked piano true "focus"
           ltac:(vm_compute; reflexivity) ltac:(vm_compute; reflexivity)).
Defined.

End AudioTheorems.

(** ** Disabling detection while speech is active *)

Module RendererTheorems.

Import AudioSystem AudioFacts.

#[local] Open Scope nat_scope.

Lemma onSpeechEnded_unmuted (now : float) (s : state) :
  isVADMuted (onSpeechEnded now s) = false.
Proof.
  unfold onSpeechEnded. destruct (isVADMuted s) eqn:Hm; [|exact Hm].
  cbn [negb].
  set (s1 := match currentAudio (set_isVADMuted false s),
                   originalVolume (set_isVADMuted false s) with
             | Some a, Some v => _
             | _, _ => _
             end).
  assert (H1 : isVADMuted s1 = false).
  { subst s1. destruct s as [vol cur demo muted ov og df ft els ds ivs].
    audio_simpl. destruct cur, ov; try reflexivity.
    unfold fadeVolume; audio_simpl. now destruct (_ <$> _). }
  destruct (demoAudio s1), (originalGain s1); try exact H1.
  pose proof (fadeGain_fields n f (vadFadeTime s1) now s1) as Hf.
  cbv zeta in Hf. destruct Hf as (_ & _ & _ & -> & _). exact H1.
Qed.

(** The restore of a ducked demo tone: the ramp back to the snapshot is
    scheduled on its gain. *)
Lemma restore_demo (now : float) (s : state) (d : nat) (g : float)
    (demo : DemoAudio) :
  isVADMuted s = true -> demoAudio s = Some d ->
  originalGain s = Some g -> demos s !! d = Some demo ->
  gain_events <$> demos (onSpeechEnded now s) !! d =
  Some (gain_events demo ++
        [SetValueAtTime (gain_value demo) now;
         LinearRampToValueAtTime g (now + vadFadeTime s / 1000)%float]).
Proof.
  intros Hm Hd Hg Hdemo. unfold onSpeechEnded. rewrite Hm.
  destruct s as [vol cur dm muted ov og df ft els ds ivs].
  audio_simpl. subst muted dm og.
  destruct cur as [a|], ov as [v|]; audio_simpl;
    try (unfold fadeVolume; audio_simpl; destruct (_ <$> els !! _);
         audio_simpl);
    unfold fadeGain; audio_simpl; rewrite Hdemo; audio_simpl;
    rewrite list_lookup_insert_eq by (eapply lookup_lt_Some; eauto);
    reflexivity.
Qed.

(** C7: [setVADEnabled(false)] while speech is active emits [speechEnd]
    at once and leaves the detector disabled, inactive and with
    [speechStartTime] null.  The listener runs [onSpeechEnded] in the
    same call: the audio system is no longer ducked, the fade of a ducked
    track back to its snapshot is registered and, run to its end, leaves
    the track at the snapshot, and the ramp of a ducked tone back to its
    snapshot is scheduled. *)
Theorem setVADEnabled_false_ends_speech (r : Renderer.state)
    (now : float) :
  VoiceProcessor.isSpeechActive (Renderer.voiceProcessor r) = true ->
  let vp := Renderer.voiceProcessor r in
  let au := Renderer.audioSystem r in
  let r' := Renderer.setVADEnabled false now r in
  let vp' := Renderer.voiceProcessor r' in
  let au' := Renderer.audioSystem r' in
  VoiceProcessor.setVADEnabled false vp =
    (vp', [VoiceProcessor.speechEnd]) /\
  VoiceProcessor.vadEnabled vp' = false /\
  VoiceProcessor.isSpeechActive vp' = false /\
  VoiceProcessor.speechStartTime vp' = None /\
  au' = onSpeechEnded now au /\
  isVADMuted au' = false /\
  Renderer.vadIndicatorActive r' = false /\
  (forall a g v,
      isVADMuted au = true -> currentAudio au = Some a ->
      originalVolume au = Some g -> volume_of a au = Some v ->
      intervals au' =
        intervals au ++
        [Some (mkInterval a v (g - v) g 0
                 (vadFadeTime au / num_of_nat steps))%float] /\
      volume_of a
        (fires (replicate steps (List.length (intervals au))) au')
      = Some g) /\
  (forall d g demo,
      isVADMuted au = true -> demoAudio au = Some d ->
      originalGain au = Some g -> demos au !! d = Some demo ->
      gain_events <$> demos au' !! d =
      Some (gain_events demo ++
            [SetValueAtTime (gain_value demo) now;
             LinearRampToValueAtTime g
               (now + vadFadeTime au / 1000)%float])).
Proof.
  intros Hact vp au r' vp' au'.
  destruct r as [vp0 au0 ind]. cbn in vp, au, Hact. subst vp au.
  assert (Hr' : r' = Renderer.mkState
                       (VoiceProcessor.set_speechStartTime None
                          (VoiceProcessor.set_isSpeechActive false
                             (VoiceProcessor.set_vadEnabled false vp0)))
                       (onSpeechEnded now au0) false).
  { subst r'. unfold Renderer.setVADEnabled, VoiceProcessor.setVADEnabled.
    cbn [Renderer.voiceProcessor Renderer.audioSystem
         Renderer.vadIndicatorActive negb andb].
    destruct vp0; cbn in Hact; subst. reflexivity. }
  subst vp' au'. rewrite Hr'. clear Hr' r'.
  cbn [Renderer.voiceProcessor Renderer.audioSystem
       Renderer.vadIndicatorActive].
  split.
  { unfold VoiceProcessor.setVADEnabled.
    destruct vp0; cbn in Hact; subst. reflexivity. }
  split; [now destruct vp0|]. split; [now destruct vp0|].
  split; [now destruct vp0|]. split; [reflexivity|].
  split; [apply onSpeechEnded_unmuted|]. split; [reflexivity|].
  split.
  - intros a g v Hm Ha Ho Hv.
    destruct (restore_track now au0 a g v Hm Ha Ho Hv)
      as (_ & _ & _ & He & Hi & _).
    split; [exact Hi|].
    rewrite (fade_registered_completes _ _ _ Hi eq_refl).
    pose proof (volume_of_lt a v au0 Hv) as Hlt. rewrite <- He in Hlt.
    destruct (onSpeechEnded now au0); audio_simpl.
    rewrite list_lookup_alter_eq.
    destruct (lookup_lt_is_Some_2 _ _ Hlt) as [el ->]. reflexivity.
  - intros d g demo Hm Hd Hg Hdemo.
    now apply restore_demo.
Qed.

Lemma setVADEnabled_false_ends_speech_witness :
  let vp := fst (VoiceProcessor.run VoiceProcessor.init
                   Scenario.active_episode) in
  let r := Renderer.mkState vp Scenario.ducked true in
  let r' := Renderer.setVADEnabled false 3 r in
  VoiceProcessor.isSpeechActive (Renderer.voiceProcessor r') = false /\
  isVADMuted (Renderer.audioSystem r') = false /\
  volume_of 0
    (fires (replicate steps 1) (Renderer.audioSystem r')) = Some 0.5%float.
Proof.
  pose proof (setVADEnabled_false_ends_speech
                (Renderer.mkState
                   (fst (VoiceProcessor.run VoiceProcessor.init
                           Scenario.active_episode))
                   Scenario.ducked true) 3
                ltac:(vm_compute; reflexivity)) as H.
  cbv zeta in H.
  destruct H as (_ & _ & Hactive & _ & _ & Hmuted & _ & Htrack & _).
  split; [exact Hactive|]. split; [exact Hmuted|].
  exact (proj2 (Htrack 0 0.5%float (0.5 * 0.2)%float
                  ltac:(vm_compute; reflexivity)
                  ltac:(vm_compute; reflexivity)
                  ltac:(vm_compute; reflexivity)
                  ltac:(vm_compute; reflexivity))).
Defined.

End RendererTheorems.

(** ** Facts about JavaScript numbers *)

Module FloatFacts.

Lemma SFcompare_antisym (x y : SpecFloat.spec_float) :
  SpecFloat.SFcompare y x = option_map CompOpp (SpecFloat.SFcompare x y).
Proof.
  destruct x as [sx|sx| |sx mx ex], y as [sy|sy| |sy my ey]; cbn;
    try reflexivity;
    try (destruct sx; reflexivity); try (destruct sy; reflexivity);
    try (destruct sx, sy; reflexivity).
  destruct sx, sy; cbn; try reflexivity;
    rewrite (Z.compare_antisym ey ex);
    destruct (ey ?= ex)%Z; cbn; try reflexivity;
    change (Pos.compare_cont Eq my mx) with (my ?= mx)%positive;
    change (Pos.compare_cont Eq mx my) with (mx ?= my)%positive;
    rewrite (Pos.compare_antisym my mx);
    destruct (my ?= mx)%positive; reflexivity.
Qed.

Lemma ltb_antisym (x y : float) :
  PrimFloat.ltb x y = true -> PrimFloat.ltb y x = false.
Proof.
  rewrite !FloatAxioms.ltb_spec. unfold SpecFloat.SFltb.
  rewrite (SFcompare_antisym (Prim2SF x) (Prim2SF y)).
  destruct (SpecFloat.SFcompare (Prim2SF x) (Prim2SF y)) as [[]|];
    cbn; congruence.
Qed.

Lemma ltb_irrefl (x : float) : PrimFloat.ltb x x = false.
Proof.
  destruct (PrimFloat.ltb x x) eqn:H; [|reflexivity].
  pose proof (ltb_antisym x x H). congruence.
Qed.

Lemma is_nan_Prim2SF (x : float) :
  PrimFloat.is_nan x = true <-> Prim2SF x = SpecFloat.S754_nan.
Proof.
  unfold Prim2SF. destruct (PrimFloat.is_nan x); split; try reflexivity;
    try discriminate.
  destruct (PrimFloat.is_zero x); [discriminate|].
  destruct (PrimFloat.is_infinity x); [discriminate|].
  destruct (Z.frexp x) as [r e].
  destruct (SpecFloat.shr_fexp _ _ _ _ _) as [shr e'].
  destruct (SpecFloat.shr_m shr); discriminate.
Qed.

Lemma ltb_nan_l (x y : float) :
  PrimFloat.is_nan x = true -> PrimFloat.ltb x y = false.
Proof.
  intros H. apply is_nan_Prim2SF in H.
  rewrite FloatAxioms.ltb_spec, H. reflexivity.
Qed.

Lemma ltb_nan_r (x y : float) :
  PrimFloat.is_nan y = true -> PrimFloat.ltb x y = false.
Proof.
  intros H. apply is_nan_Prim2SF in H.
  rewrite FloatAxioms.ltb_spec, H. unfold SpecFloat.SFltb.
  now destruct (Prim2SF x).
Qed.

Lemma mul_nan_r (x y : float) :
  PrimFloat.is_nan y = true -> PrimFloat.is_nan (x * y) = true.
Proof.
  intros H. apply is_nan_Prim2SF in H. apply is_nan_Prim2SF.
  rewrite FloatAxioms.mul_spec, H. unfold FloatAxioms.SF64mul.
  now destruct (Prim2SF x).
Qed.

Lemma add_nan_l (x y : float) :
  PrimFloat.is_nan x = true -> PrimFloat.is_nan (x + y) = true.
Proof.
  intros H. apply is_nan_Prim2SF in H. apply is_nan_Prim2SF.
  rewrite FloatAxioms.add_spec, H. reflexivity.
Qed.

Lemma add_nan_r (x y : float) :
  PrimFloat.is_nan y = true -> PrimFloat.is_nan (x + y) = true.
Proof.
  intros H. apply is_nan_Prim2SF in H. apply is_nan_Prim2SF.
  rewrite FloatAxioms.add_spec, H. unfold FloatAxioms.SF64add.
  now destruct (Prim2SF x).
Qed.

(** Two numbers of which neither is smaller and neither is NaN are
    equal as numbers. *)
Lemma not_ltb_eqb (x y : float) :
  PrimFloat.is_nan x = false -> PrimFloat.is_nan y = false ->
  PrimFloat.ltb x y = false -> PrimFloat.ltb y x = false ->
  PrimFloat.eqb x y = true.
Proof.
  intros Hx Hy. rewrite !FloatAxioms.ltb_spec, FloatAxioms.eqb_spec.
  unfold SpecFloat.SFltb, SpecFloat.SFeqb.
  rewrite (SFcompare_antisym (Prim2SF x) (Prim2SF y)).
  assert (Hnx : Prim2SF x <> SpecFloat.S754_nan)
    by (intros E; apply is_nan_Prim2SF in E; congruence).
  assert (Hny : Prim2SF y <> SpecFloat.S754_nan)
    by (intros E; apply is_nan_Prim2SF in E; congruence).
  destruct (SpecFloat.SFcompare (Prim2SF x) (Prim2SF y)) as [[]|] eqn:E;
    cbn; try congruence.
  destruct (Prim2SF x), (Prim2SF y); cbn in E; congruence.
Qed.

(** [Math.max(lo, Math.min(hi, x))] of a number is neither below [lo]
    nor above [hi]. *)
Lemma clamp_bounds (lo hi x : float) :
  PrimFloat.is_nan lo = false -> PrimFloat.is_nan hi = false ->
  PrimFloat.ltb hi lo = false ->
  PrimFloat.is_nan x = false ->
  let r := JS.Math_max lo (JS.Math_min hi x) in
  PrimFloat.is_nan r = false /\
  PrimFloat.ltb r lo = false /\ PrimFloat.ltb hi r = false.
Proof.
  intros Hlo Hhi Hle Hx. unfold JS.Math_min. rewrite Hhi, Hx. cbn [orb].
  pose proof (ltb_irrefl lo). pose proof (ltb_irrefl hi).
  pose proof (ltb_antisym hi x). pose proof (ltb_antisym x hi).
  assert (Hmax : forall m, PrimFloat.is_nan m = false ->
            PrimFloat.ltb hi m = false ->
            let r := JS.Math_max lo m in
            PrimFloat.is_nan r = false /\
            PrimFloat.ltb r lo = false /\ PrimFloat.ltb hi r = false).
  { intros m Hm Hhm. unfold JS.Math_max. rewrite Hlo, Hm. cbn [orb].
    pose proof (ltb_antisym lo m). pose proof (ltb_antisym m lo).
    destruct (PrimFloat.ltb lo m) eqn:E1; [auto|].
    destruct (PrimFloat.ltb m lo) eqn:E2; [auto|].
    destruct (PrimFloat.get_sign lo); auto. }
  destruct (PrimFloat.ltb hi x) eqn:E1; [apply Hmax; auto|].
  destruct (PrimFloat.ltb x hi) eqn:E2; [apply Hmax; auto|].
  destruct (PrimFloat.get_sign hi); apply Hmax; auto.
Qed.

(** A NaN goes through [Math.max(lo, Math.min(hi, x))] unchanged. *)
Lemma clamp_nan (lo hi x : float) :
  PrimFloat.is_nan x = true ->
  JS.Math_max lo (JS.Math_min hi x) = PrimFloat.nan.
Proof.
  intros Hx. unfold JS.Math_min. rewrite Hx, orb_true_r.
  unfold JS.Math_max.
  replace (PrimFloat.is_nan PrimFloat.nan) with true by reflexivity.
  now rewrite orb_true_r.
Qed.

(** A number between two bounds with positive sign goes through
    [Math.max(lo, Math.min(hi, x))] unchanged as a number. *)
Lemma clamp_in_range (lo hi x : float) :
  PrimFloat.is_nan lo = false -> PrimFloat.is_nan hi = false ->
  PrimFloat.get_sign lo = false -> PrimFloat.get_sign hi = false ->
  PrimFloat.is_nan x = false ->
  PrimFloat.ltb x lo = false -> PrimFloat.ltb hi x = false ->
  PrimFloat.eqb (JS.Math_max lo (JS.Math_min hi x)) x = true.
Proof.
  intros Hlo Hhi Hslo Hshi Hx Hxlo Hhix.
  assert (Hxx : PrimFloat.eqb x x = true).
  { unfold PrimFloat.is_nan in Hx. now apply negb_false_iff in Hx. }
  assert (Hmin : JS.Math_min hi x = x).
  { unfold JS.Math_min. rewrite Hhi, Hx, Hhix, Hshi. cbn [orb].
    now destruct (PrimFloat.ltb x hi). }
  rewrite Hmin. unfold JS.Math_max. rewrite Hlo, Hx, Hxlo, Hslo.
  cbn [orb]. destruct (PrimFloat.ltb lo x) eqn:E; [exact Hxx|].
  now apply not_ltb_eqb.
Qed.

(** [Math.max(0, Math.min(1, x))] of a number, case by case.  A zero of
    either sign gives the positive zero. *)
Lemma clamp_unit (x : float) :
  PrimFloat.is_nan x = false ->
  JS.Math_max 0 (JS.Math_min 1 x) =
  if PrimFloat.ltb 1 x then 1%float
  else if PrimFloat.ltb 0 x then x
  else 0%float.
Proof.
  intros Hx.
  assert (Hmax : JS.Math_max 0 x =
                 if PrimFloat.ltb 0 x then x else 0%float).
  { unfold JS.Math_max. rewrite Hx.
    replace (PrimFloat.is_nan 0) with false by reflexivity.
    replace (PrimFloat.get_sign 0) with false by reflexivity.
    cbn [orb]. destruct (PrimFloat.ltb 0 x); [reflexivity|].
    now destruct (PrimFloat.ltb x 0). }
  unfold JS.Math_min. rewrite Hx.
  replace (PrimFloat.is_nan 1) with false by reflexivity.
  replace (PrimFloat.get_sign 1) with false by reflexivity.
  cbn [orb]. destruct (PrimFloat.ltb 1 x); [reflexivity|].
  destruct (PrimFloat.ltb x 1); exact Hmax.
Qed.

End FloatFacts.

(** ** The detector: start of speech, NaN and the threshold setting *)

Module VADExtras.

Import VoiceProcessor Spec Scenario Observations VADFacts FloatFacts.

(** Under a positive clock [speechStartTime] is null or positive. *)
Lemma start_positive_step (s : state) (c : call) :
  (forall t, speechStartTime s = Some t -> 0 < t) ->
  clock_positive c ->
  forall t, speechStartTime (fst (step s c)) = Some t -> 0 < t.
Proof.
  intros Hs Hpos.
  destruct c as [audio now | enabled | threshold]; cbn [step];
    cbn in Hpos.
  - destruct (vadEnabled s) eqn:Hon.
    2:{ now rewrite processVAD_disabled by assumption. }
    rewrite processVAD_enabled by assumption. cbn [fst].
    pose proof (smoothEnergy_fields audio s) as Hsm; cbv zeta in Hsm.
    destruct Hsm as (_ & _ & _ & _ & _ & Hst & _).
    rewrite <- Hst in Hs. clear Hst.
    destruct (smoothEnergy audio s)
      as [en1 thr1 sf1 msd1 sto1 ce1 sst1 lst1 act1 h1 cap1].
    vad_simpl.
    destruct (isSpeechDetected _); unfold onDetected, onQuiet; vad_simpl;
      vad_cases; intros t Ht; try discriminate; auto;
      injection Ht as <-; exact Hpos.
  - destruct s as [en thr sf msd sto ce sst lst act h cap].
    unfold setVADEnabled; vad_simpl. vad_cases; auto; discriminate.
  - destruct s; exact Hs.
Qed.

Lemma start_positive_run (s : state) (cs : list call) :
  (forall t, speechStartTime s = Some t -> 0 < t) ->
  Forall clock_positive cs ->
  forall t, speechStartTime (fst (run s cs)) = Some t -> 0 < t.
Proof.
  revert s; induction cs as [|c cs IH]; intros s Hs Hcs; simpl; auto.
  inversion Hcs as [|? ? Hc Hcs']; subst.
  pose proof (start_positive_step s c Hs Hc) as H1.
  destruct (step s c) as [s1 evs1]; simpl in *.
  specialize (IH s1 H1 Hcs').
  now destruct (run s1 cs).
Qed.

(** X1: in a run from the constructor with a positive clock, a frame
    processed while speech is not active and detection is enabled emits
    [speechStart] exactly when it is above the threshold and at least
    [vadMinSpeechDuration] (300 ms) after the recorded [speechStartTime];
    a frame above the threshold with no start time recorded only records
    its own time, and a frame below the threshold leaves the start time
    as it is. *)
Theorem speechStart_after_minSpeechDuration (cs : list call)
    (audio : list float) (now : Z) :
  Forall clock_positive cs -> 0 < now ->
  let s := fst (run init cs) in
  let detected := isSpeechDetected (smoothEnergy audio s) in
  let '(s', evs, ret) := processVAD audio now s in
  isSpeechActive s = false -> vadEnabled s = true ->
  (detected = false ->
     evs = [] /\ ret = false /\ speechStartTime s' = speechStartTime s) /\
  (detected = true -> speechStartTime s = None ->
     evs = [] /\ ret = false /\ speechStartTime s' = Some now) /\
  (forall t0, detected = true -> speechStartTime s = Some t0 ->
     speechStartTime s' = Some t0 /\ lastSpeechTime s' = Some now /\
     (300 <= now - t0 -> evs = [speechStart] /\ ret = true) /\
     (now - t0 < 300 -> evs = [] /\ ret = false)).
Proof.
  intros Hcs Hnow s detected.
  destruct (configured_run init cs configured_init) as [_ _ Hmin _ _].
  pose proof (start_positive_run init cs
                ltac:(intros t; discriminate) Hcs) as Hst.
  fold s in Hmin, Hst.
  destruct (vadEnabled s) eqn:Hon.
  2:{ rewrite processVAD_disabled by assumption. intros; discriminate. }
  rewrite processVAD_enabled by assumption. cbv zeta.
  fold detected. clearbody detected.
  pose proof (smoothEnergy_fields audio s) as Hsm; cbv zeta in Hsm.
  destruct Hsm as (_ & _ & _ & Hm1 & _ & Hs1 & _ & Hact & _).
  destruct (smoothEnergy audio s)
    as [en1 thr1 sf1 msd1 sto1 ce1 sst1 lst1 act1 h1 cap1].
  vad_simpl. subst act1 sst1 msd1. rewrite Hmin.
  intros Ha _. rewrite Ha.
  destruct detected.
  - split; [discriminate|]. unfold onDetected; vad_simpl. split.
    + intros _ Hnone. rewrite Hnone. cbn [JS.truthy]. vad_simpl.
      replace (now - now) with 0 by lia. cbn [Z.leb Z.compare andb].
      vad_simpl. auto.
    + intros t0 _ Ht0. rewrite Ht0.
      pose proof (Hst t0 Ht0) as Hpos.
      rewrite (truthy_positive t0 Hpos). vad_simpl.
      rewrite andb_true_r.
      destruct (Z.leb_spec 300 (now - t0)); vad_simpl;
        (split; [reflexivity|]); (split; [reflexivity|]);
        split; intros; try lia; auto.
  - unfold onQuiet; vad_simpl.
    split; [intros _; auto|]. split; intros; discriminate.
Qed.

Lemma speechStart_after_minSpeechDuration_witness :
  let cs := [Frame quiet 1000; Frame loud 2000; Frame loud 2100] in
  let s := fst (run init cs) in
  let detected := isSpeechDetected (smoothEnergy loud s) in
  let '(s', evs, ret) := processVAD loud 2300 s in
  isSpeechActive s = false -> vadEnabled s = true ->
  (detected = false ->
     evs = [] /\ ret = false /\ speechStartTime s' = speechStartTime s) /\
  (detected = true -> speechStartTime s = None ->
     evs = [] /\ ret = false /\ speechStartTime s' = Some 2300) /\
  (forall t0, detected = true -> speechStartTime s = Some t0 ->
     speechStartTime s' = Some t0 /\ lastSpeechTime s' = Some 2300 /\
     (300 <= 2300 - t0 -> evs = [speechStart] /\ ret = true) /\
     (2300 - t0 < 300 -> evs = [] /\ ret = false)).
Proof.
  apply (speechStart_after_minSpeechDuration
           [Frame quiet 1000; Frame loud 2000; Frame loud 2100] loud 2300).
  - repeat constructor.
  - reflexivity.
Defined.

(** *** NaN in the energy *)

Lemma smoothEnergy_currentEnergy (audio : list float) (s : state) :
  currentEnergy (smoothEnergy audio s) =
  (vadSmoothingFactor s * currentEnergy s
   + (1 - vadSmoothingFactor s) * calculateAudioEnergy audio)%float.
Proof.
  destruct s as [en thr sf msd sto ce sst lst act h cap].
  unfold smoothEnergy, updateEnergyHistory; vad_simpl.
  now destruct (_ <? _)%nat.
Qed.

Lemma not_detected_nan_energy (s : state) :
  PrimFloat.is_nan (currentEnergy s) = true -> isSpeechDetected s = false.
Proof. intros H. unfold isSpeechDetected, JS.gt. now apply ltb_nan_r. Qed.

Lemma onQuiet_events (now : Z) (s : state) :
  ~ In speechStart (snd (onQuiet now s)) /\
  currentEnergy (fst (onQuiet now s)) = currentEnergy s /\
  vadThreshold (fst (onQuiet now s)) = vadThreshold s.
Proof.
  destruct s as [en thr sf msd sto ce sst lst act h cap].
  unfold onQuiet; vad_simpl. vad_cases; cbn; repeat split; auto;
    intros [H|H]; auto; discriminate.
Qed.

Lemma step_quiet (s : state) (c : call) :
  (forall audio, isSpeechDetected (smoothEnergy audio s) = false) ->
  ~ In speechStart (snd (step s c)) /\
  (forall audio now, c = Frame audio now -> vadEnabled s = true ->
     currentEnergy (fst (step s c)) = currentEnergy (smoothEnergy audio s)).
Proof.
  intros Hq. destruct c as [audio now | enabled | threshold]; cbn [step].
  - destruct (vadEnabled s) eqn:Hon.
    2:{ rewrite processVAD_disabled by assumption. split; [auto|].
        intros; discriminate. }
    rewrite processVAD_enabled by assumption. cbv zeta. cbn [fst snd].
    rewrite Hq.
    destruct (onQuiet_events now (smoothEnergy audio s)) as (Hev & Hce & _).
    split; [exact Hev|]. now intros ? ? [= <- <-] _.
  - split; [|intros; discriminate].
    destruct s as [en thr sf msd sto ce sst lst act h cap].
    unfold setVADEnabled; vad_simpl. vad_cases; cbn; auto.
    intros [H|H]; auto; discriminate.
  - split; [auto|intros; discriminate].
Qed.

Lemma nan_energy_step (s : state) (c : call) :
  PrimFloat.is_nan (currentEnergy s) = true ->
  PrimFloat.is_nan (currentEnergy (fst (step s c))) = true /\
  ~ In speechStart (snd (step s c)).
Proof.
  intros Hnan.
  assert (Hsm : forall audio,
            PrimFloat.is_nan (currentEnergy (smoothEnergy audio s)) = true).
  { intros audio. rewrite smoothEnergy_currentEnergy.
    apply add_nan_l, mul_nan_r, Hnan. }
  assert (Hq : forall audio,
            isSpeechDetected (smoothEnergy audio s) = false)
    by (intros; apply not_detected_nan_energy, Hsm).
  destruct (step_quiet s c Hq) as [Hev Hce]. split; [|exact Hev].
  destruct c as [audio now | enabled | threshold].
  - destruct (vadEnabled s) eqn:Hon.
    + rewrite (Hce audio now eq_refl eq_refl). apply Hsm.
    + cbn [step]. now rewrite processVAD_disabled by assumption.
  - cbn [step]. destruct s as [en thr sf msd sto ce sst lst act h cap].
    unfold setVADEnabled; vad_simpl. now vad_cases.
  - cbn [step]. now destruct s.
Qed.

Lemma nan_energy_run (s : state) (cs : list call) :
  PrimFloat.is_nan (currentEnergy s) = true ->
  PrimFloat.is_nan (currentEnergy (fst (run s cs))) = true /\
  ~ In speechStart (snd (run s cs)).
Proof.
  revert s; induction cs as [|c cs IH]; intros s Hnan; simpl; auto.
  destruct (nan_energy_step s c Hnan) as [H1 H2].
  destruct (step s c) as [s1 evs1]; simpl in *.
  destruct (IH s1 H1) as [H3 H4].
  destruct (run s1 cs) as [s2 evs2]; simpl in *.
  split; [exact H3|]. rewrite in_app_iff. tauto.
Qed.

(** X2: a processed frame whose energy is NaN, such as an empty frame,
    makes the smoothed energy NaN for good: whatever calls follow, the
    smoothed energy stays NaN and [speechStart] is never emitted
    again. *)
Theorem nan_energy_disables_detection (s : state) (audio : list float)
    (now : Z) (cs : list call) :
  vadEnabled s = true ->
  PrimFloat.is_nan (calculateAudioEnergy audio) = true ->
  let '(s1, evs1, _) := processVAD audio now s in
  ~ In speechStart evs1 /\
  PrimFloat.is_nan (currentEnergy (fst (run s1 cs))) = true /\
  ~ In speechStart (snd (run s1 cs)).
Proof.
  intros Hon Hnan.
  assert (Hsm : PrimFloat.is_nan (currentEnergy (smoothEnergy audio s))
                = true).
  { rewrite smoothEnergy_currentEnergy. apply add_nan_r, mul_nan_r, Hnan. }
  rewrite processVAD_enabled by assumption. cbv zeta.
  rewrite (not_detected_nan_energy _ Hsm).
  destruct (onQuiet_events now (smoothEnergy audio s)) as (Hev & Hce & _).
  split; [exact Hev|]. apply nan_energy_run. now rewrite Hce.
Qed.

Lemma nan_energy_disables_detection_witness :
  let '(s1, evs1, _) := processVAD [] 500 init in
  ~ In speechStart evs1 /\
  PrimFloat.is_nan (currentEnergy (fst (run s1 active_episode))) = true /\
  ~ In speechStart (snd (run s1 active_episode)).
Proof.
  exact (nan_energy_disables_detection init [] 500 active_episode
           eq_refl eq_refl).
Defined.

(** *** The threshold setting *)

(** X3: [setVADThreshold] of a number leaves a threshold that is not
    NaN, not below 0.001 and not above 0.1; a number already in that
    range is kept, and no other field changes. *)
Theorem setVADThreshold_clamps (threshold : float) (s : state) :
  PrimFloat.is_nan threshold = false ->
  let s' := setVADThreshold threshold s in
  PrimFloat.is_nan (vadThreshold s') = false /\
  PrimFloat.ltb (vadThreshold s') 0.001 = false /\
  PrimFloat.ltb 0.1 (vadThreshold s') = false /\
  (PrimFloat.ltb threshold 0.001 = false ->
   PrimFloat.ltb 0.1 threshold = false ->
   PrimFloat.eqb (vadThreshold s') threshold = true) /\
  s' = set_vadThreshold (vadThreshold s') s.
Proof.
  intros Hnan s'.
  destruct (clamp_bounds 0.001 0.1 threshold eq_refl eq_refl eq_refl Hnan)
    as (H1 & H2 & H3).
  assert (Hthr : vadThreshold s' =
                 JS.Math_max 0.001 (JS.Math_min 0.1 threshold))
    by (subst s'; now destruct s).
  rewrite Hthr.
  split; [exact H1|]. split; [exact H2|]. split; [exact H3|].
  split; [|subst s'; now destruct s].
  intros Hlo Hhi.
  exact (clamp_in_range 0.001 0.1 threshold eq_refl eq_refl eq_refl
           eq_refl Hnan Hlo Hhi).
Qed.

Lemma setVADThreshold_clamps_witness :
  let s' := setVADThreshold 5 init in
  PrimFloat.is_nan (vadThreshold s') = false /\
  PrimFloat.ltb (vadThreshold s') 0.001 = false /\
  PrimFloat.ltb 0.1 (vadThreshold s') = false /\
  (PrimFloat.ltb 5 0.001 = false ->
   PrimFloat.ltb 0.1 5 = false ->
   PrimFloat.eqb (vadThreshold s') 5 = true) /\
  s' = set_vadThreshold (vadThreshold s') init.
Proof. exact (setVADThreshold_clamps 5 init eq_refl). Defined.

Lemma not_detected_nan_threshold (s : state) :
  PrimFloat.is_nan (vadThreshold s) = true -> isSpeechDetected s = false.
Proof.
  intros H. unfold isSpeechDetected, adaptiveThreshold, JS.gt, JS.Math_max.
  rewrite H. cbn [orb]. now apply ltb_nan_l.
Qed.

Lemma nan_threshold_step (s : state) (c : call) :
  PrimFloat.is_nan (vadThreshold s) = true -> keeps_threshold c ->
  PrimFloat.is_nan (vadThreshold (fst (step s c))) = true /\
  ~ In speechStart (snd (step s c)).
Proof.
  intros Hnan Hkeep.
  assert (Hthr : forall audio,
            vadThreshold (smoothEnergy audio s) = vadThreshold s).
  { intros audio. pose proof (smoothEnergy_fields audio s) as Hsm.
    cbv zeta in Hsm. tauto. }
  assert (Hq : forall audio,
            isSpeechDetected (smoothEnergy audio s) = false)
    by (intros; apply not_detected_nan_threshold; now rewrite Hthr).
  destruct (step_quiet s c Hq) as [Hev _]. split; [|exact Hev].
  destruct c as [audio now | enabled | threshold]; cbn [step].
  - destruct (vadEnabled s) eqn:Hon.
    + rewrite processVAD_enabled by assumption. cbv zeta. cbn [fst].
      rewrite Hq.
      destruct (onQuiet_events now (smoothEnergy audio s)) as (_ & _ & ->).
      now rewrite Hthr.
    + now rewrite processVAD_disabled by assumption.
  - destruct s as [en thr sf msd sto ce sst lst act h cap].
    unfold setVADEnabled; vad_simpl. now vad_cases.
  - destruct Hkeep.
Qed.

(** X4: [setVADThreshold(NaN)] stores NaN, and then no frame is detected
    as speech: until the threshold is set again, [speechStart] is never
    emitted. *)
Theorem setVADThreshold_nan_disables_detection (threshold : float)
    (s : state) (cs : list call) :
  PrimFloat.is_nan threshold = true -> Forall keeps_threshold cs ->
  vadThreshold (setVADThreshold threshold s) = PrimFloat.nan /\
  ~ In speechStart (snd (run (setVADThreshold threshold s) cs)).
Proof.
  intros Hnan Hcs.
  assert (Hthr : vadThreshold (setVADThreshold threshold s) = PrimFloat.nan).
  { destruct s. cbn. now apply clamp_nan. }
  split; [exact Hthr|].
  assert (Hs : PrimFloat.is_nan
                 (vadThreshold (setVADThreshold threshold s)) = true)
    by now rewrite Hthr.
  revert Hs. generalize (setVADThreshold threshold s). clear Hthr.
  induction cs as [|c cs IH]; intros s0 Hs; simpl; auto.
  inversion Hcs as [|? ? Hc Hcs']; subst.
  destruct (nan_threshold_step s0 c Hs Hc) as [H1 H2].
  destruct (step s0 c) as [s1 evs1]; simpl in *.
  specialize (IH Hcs' s1 H1).
  destruct (run s1 cs) as [s2 evs2]; simpl in *.
  rewrite in_app_iff. tauto.
Qed.

Lemma setVADThreshold_nan_disables_detection_witness :
  vadThreshold (setVADThreshold PrimFloat.nan init) = PrimFloat.nan /\
  ~ In speechStart
      (snd (run (setVADThreshold PrimFloat.nan init) active_episode)).
Proof.
  apply (setVADThreshold_nan_disables_detection PrimFloat.nan init
           active_episode).
  - reflexivity.
  - repeat constructor.
Defined.

End VADExtras.

(** ** The audio system: overlapping fades, volume, stop and search *)

Module AudioExtras.

Import AudioSystem Playback Spec Scenario Observations.
Import AudioFacts FloatFacts.

#[local] Open Scope nat_scope.

Ltac play_simpl :=
  unfold set_volume, set_vadDuckingFactor, write_gain, stop_demo,
    set_audio in *;
  cbn [audio currentMusicStyle isPlaying freesoundApiKey trackCache
       fst snd] in *;
  audio_simpl.

(** *** Fades that overlap *)

Lemma fire_other (id id' : nat) (s : state) :
  id' <> id ->
  intervals (fire id' s) !! id = intervals s !! id /\
  List.length (elements (fire id' s)) = List.length (elements s).
Proof.
  intros Hne. unfold fire.
  destruct (intervals s !! id') as [[iv|]|] eqn:E; [|auto..].
  destruct (steps <=? S (iv_currentStep iv)); destruct s; audio_simpl;
    rewrite ?length_alter; (split; [|reflexivity]);
    now apply list_lookup_insert_ne.
Qed.

Lemma fire_same (id : nat) (iv : Interval) (s : state) :
  intervals s !! id = Some (Some iv) ->
  S (iv_currentStep iv) < steps ->
  intervals (fire id s) !! id =
    Some (Some (mkInterval (iv_element iv) (iv_startVolume iv)
                  (iv_volumeDiff iv) (iv_targetVolume iv)
                  (S (iv_currentStep iv)) (iv_stepTime iv))) /\
  List.length (elements (fire id s)) = List.length (elements s).
Proof.
  intros Hiv Hlt. rewrite (fire_step id iv s Hiv Hlt).
  pose proof (lookup_lt_Some _ _ _ Hiv) as Hlen.
  destruct s; audio_simpl. rewrite length_alter.
  split; [now apply list_lookup_insert_eq | reflexivity].
Qed.

(** Whatever timers fire, a timer that has not reached its last step is
    still registered, advanced by the number of its own firings. *)
Lemma fires_count (id : nat) (ids : list nat) :
  forall (s : state) (iv : Interval),
    intervals s !! id = Some (Some iv) ->
    iv_currentStep iv + count_occ Nat.eq_dec ids id < steps ->
    intervals (fires ids s) !! id =
      Some (Some (mkInterval (iv_element iv) (iv_startVolume iv)
                    (iv_volumeDiff iv) (iv_targetVolume iv)
                    (iv_currentStep iv + count_occ Nat.eq_dec ids id)
                    (iv_stepTime iv))) /\
    List.length (elements (fires ids s)) = List.length (elements s).
Proof.
  induction ids as [|id' ids IH]; intros s iv Hiv Hlt.
  - cbn. rewrite Nat.add_0_r. now destruct iv.
  - cbn [fires fold_left count_occ] in *.
    destruct (Nat.eq_dec id' id) as [->|Hne].
    + destruct (fire_same id iv s Hiv ltac:(lia)) as [Hiv' Hlen].
      destruct (IH (fire id s) _ Hiv' ltac:(cbn; lia)) as [H1 H2].
      unfold fires in *. rewrite H1, H2, Hlen. cbn.
      split; [|reflexivity]. do 3 f_equal. lia.
    + destruct (fire_other id id' s Hne) as [Hiv' Hlen].
      rewrite <- Hiv' in Hiv.
      destruct (IH (fire id' s) _ Hiv Hlt) as [H1 H2].
      unfold fires in *. now rewrite H1, H2, Hlen.
Qed.

(** When a timer fires its last step, the element is at the target of
    that timer, whatever fired before. *)
Lemma last_step_wins (id : nat) (ids : list nat) (s : state)
    (iv : Interval) :
  intervals s !! id = Some (Some iv) ->
  iv_element iv < List.length (elements s) ->
  iv_currentStep iv + count_occ Nat.eq_dec ids id = steps - 1 ->
  volume_of (iv_element iv) (fire id (fires ids s)) =
    Some (iv_targetVolume iv).
Proof.
  intros Hiv Hel Hcount.
  destruct (fires_count id ids s iv Hiv ltac:(unfold steps in *; lia))
    as [Hiv' Hlen].
  rewrite (fire_last id _ _ Hiv') by (cbn; unfold steps in *; lia).
  cbn [iv_element iv_targetVolume].
  rewrite <- Hlen in Hel.
  destruct (fires ids s); audio_simpl.
  rewrite list_lookup_alter_eq.
  destruct (lookup_lt_is_Some_2 _ _ Hel) as [el ->]. reflexivity.
Qed.

(** X5: speech that ends while the duck is still fading.  Whatever
    timers fire before and after [onSpeechEnded], and in whatever order,
    when the timer of the restore fires its twentieth step the track is
    at the volume it had before the duck. *)
Theorem restore_wins_over_duck (s : state) (a : nat)
    (g now now' : float) (before after : list nat) :
  isVADMuted s = false -> currentAudio s = Some a ->
  volume_of a s = Some g ->
  let restore := S (List.length (intervals s)) in
  let s1 := onSpeechEnded now' (fires before (onSpeechDetected now s)) in
  count_occ Nat.eq_dec after restore = steps - 1 ->
  volume_of a (fire restore (fires after s1)) = Some g.
Proof.
  intros Hm Ha Hv restore s1 Hcount.
  pose proof (volume_of_lt a g s Hv) as Hlt.
  destruct (duck_track now s a g Hm Ha Hv)
    as (Hm1 & Ha1 & Ho1 & He1 & Hi1 & _).
  pose proof (fires_fields before (onSpeechDetected now s)) as Hf.
  cbv zeta in Hf. destruct Hf as (_ & Ha2 & _ & Hm2 & Ho2 & _).
  rewrite Ha1 in Ha2. rewrite Hm1 in Hm2. rewrite Ho1 in Ho2.
  assert (Hlen : List.length (elements (fires before (onSpeechDetected now s)))
                 = List.length (elements s)).
  { rewrite <- He1. clear. generalize (onSpeechDetected now s).
    induction before as [|id ids IH]; intros s0; [reflexivity|].
    cbn. unfold fires in IH. rewrite IH.
    unfold fire. destruct (intervals s0 !! id) as [[iv|]|]; auto.
    destruct (steps <=? _); destruct s0; audio_simpl;
      now rewrite ?length_alter. }
  assert (Hilen : List.length (intervals (fires before (onSpeechDetected now s)))
                  = restore).
  { subst restore. transitivity
      (List.length (intervals (onSpeechDetected now s))).
    - clear. generalize (onSpeechDetected now s).
      induction before as [|id ids IH]; intros s0; [reflexivity|].
      cbn. unfold fires in IH. rewrite IH.
      unfold fire. destruct (intervals s0 !! id) as [[iv|]|]; auto.
      destruct (steps <=? _); destruct s0; audio_simpl;
        now rewrite ?length_insert.
    - rewrite Hi1, length_app. cbn. lia. }
  set (sd := fires before (onSpeechDetected now s)) in *.
  assert (Hvd : exists v, volume_of a sd = Some v).
  { unfold volume_of. rewrite <- Hlen in Hlt.
    destruct (lookup_lt_is_Some_2 _ _ Hlt) as [el ->]. eauto. }
  destruct Hvd as [v Hvd].
  destruct (restore_track now' sd a g v Hm2 Ha2 Ho2 Hvd)
    as (_ & _ & _ & He3 & Hi3 & _).
  fold s1 in He3, Hi3.
  assert (Hiv : intervals s1 !! restore =
                Some (Some (mkInterval a v (g - v) g 0
                              (vadFadeTime sd / num_of_nat steps)%float))).
  { rewrite Hi3, <- Hilen. now apply list_lookup_middle. }
  apply (last_step_wins restore after s1 _ Hiv).
  - cbn. rewrite He3, Hlen. exact Hlt.
  - cbn. exact Hcount.
Qed.

Lemma restore_wins_over_duck_witness :
  let s := playTrack rain true AudioSystem.init in
  let s1 := onSpeechEnded 2 (fires [0; 0; 0] (onSpeechDetected 0 s)) in
  volume_of 0
    (fire 1 (fires (replicate 17 0 ++ replicate 19 1) s1))
  = Some 0.5%float.
Proof.
  exact (restore_wins_over_duck (playTrack rain true AudioSystem.init) 0 0.5 0 2
           [0; 0; 0] (replicate 17 0 ++ replicate 19 1)
           ltac:(vm_compute; reflexivity) ltac:(vm_compute; reflexivity)
           ltac:(vm_compute; reflexivity) ltac:(vm_compute; reflexivity)).
Defined.

End AudioExtras.

(** ** The audio system: restore, volume and stop *)

Module PlaybackFacts.

Import AudioSystem Playback Spec Scenario Observations.
Import AudioFacts FloatFacts AudioExtras.

#[local] Open Scope nat_scope.

(** A restore with its fade run to the end leaves the track at the
    snapshot. *)
Lemma restore_completes (now : float) (s : state) (a : nat)
    (g v : float) :
  isVADMuted s = true -> currentAudio s = Some a ->
  originalVolume s = Some g -> volume_of a s = Some v ->
  let s2 :=
    fires (replicate steps (List.length (intervals s)))
      (onSpeechEnded now s) in
  volume_of a s2 = Some g /\ isVADMuted s2 = false /\
  volume s2 = volume s /\ currentAudio s2 = Some a.
Proof.
  intros Hm Ha Ho Hv s2.
  destruct (restore_track now s a g v Hm Ha Ho Hv)
    as (Hm1 & Ha1 & _ & He & Hi & _ & _ & Hvol).
  subst s2. rewrite (fade_registered_completes _ _ _ Hi eq_refl).
  pose proof (volume_of_lt a v s Hv) as Hlt. rewrite <- He in Hlt.
  destruct (onSpeechEnded now s); audio_simpl.
  rewrite list_lookup_alter_eq.
  destruct (lookup_lt_is_Some_2 _ _ Hlt) as [el ->]. auto.
Qed.

(** [playTrack] with a usable preview: the new element and what is
    kept. *)
Lemma playTrack_attaches (t : track) (played : bool) (s : state) :
  truthy_url (audioUrl t) = true ->
  let s' := playTrack t played s in
  currentAudio s' = Some (List.length (elements s)) /\
  volume_of (List.length (elements s)) s' = Some (volume s) /\
  isVADMuted s' = isVADMuted s /\
  originalVolume s' = originalVolume s /\
  originalGain s' = originalGain s /\
  intervals s' = intervals s /\ volume s' = volume s /\
  demoAudio s' = demoAudio s /\ demos s' = demos s /\
  vadDuckingFactor s' = vadDuckingFactor s /\
  vadFadeTime s' = vadFadeTime s.
Proof.
  intros Hurl s'. subst s'. unfold playTrack.
  destruct (audioUrl t) as [url|]; [|discriminate].
  rewrite Hurl.
  destruct s as [vol cur demo muted ov og df ft els ds ivs].
  destruct cur as [a0|]; audio_simpl.
  - rewrite length_alter. repeat split.
    replace (List.length els) with
      (List.length (alter (with_paused true) a0 els))
      by apply length_alter.
    now rewrite list_lookup_middle.
  - repeat split. now rewrite list_lookup_middle.
Qed.

(** [playTrack] without a usable preview: nothing is current
    afterwards. *)
Lemma playTrack_without_preview (t : track) (played : bool) (s : state) :
  truthy_url (audioUrl t) = false ->
  let s' := playTrack t played s in
  currentAudio s' = None /\
  isVADMuted s' = isVADMuted s /\ demoAudio s' = demoAudio s /\
  demos s' = demos s /\ volume s' = volume s /\
  (forall a el, currentAudio s = Some a -> elements s !! a = Some el ->
                elements s' !! a = Some (with_paused true el)).
Proof.
  intros Hurl s'. subst s'. unfold playTrack.
  assert (Hs1 : forall s1 : state,
            match audioUrl t with
            | Some url =>
                if truthy_url (Some url)
                then set_currentAudio
                       (Some (List.length (elements s1)))
                       (set_elements
                          (elements s1 ++
                           [mkAudio url true (volume s1) (negb played)])
                          s1)
                else s1
            | None => s1
            end = s1).
  { intros s1. destruct (audioUrl t) as [url|]; [|reflexivity].
    now rewrite Hurl. }
  rewrite Hs1.
  destruct s as [vol cur demo muted ov og df ft els ds ivs].
  destruct cur as [a0|]; audio_simpl; repeat split.
  - intros a el [= ->] Hel. now rewrite list_lookup_alter_eq, Hel.
  - intros a el [=].
Qed.

Lemma playDemoTrack_fields (st : string) (s : state) :
  let s' := playDemoTrack st s in
  isVADMuted s' = isVADMuted s /\ currentAudio s' = currentAudio s /\
  elements s' = elements s /\ volume s' = volume s /\
  demoAudio s' = Some (List.length (demos s)) /\
  demos s' = demos s ++ [mkDemo (frequencies st) true
                           (volume s * 0.1)%float []].
Proof. destruct s; repeat split. Qed.

(** What [adjustVolume] leaves of the audio system, and what it
    writes. *)
Lemma adjustVolume_fields (delta : float) (p : player) :
  let s := audio p in
  let v := JS.Math_max 0 (JS.Math_min 1 (volume s + delta))%float in
  let p' := fst (adjustVolume delta p) in
  let s' := audio p' in
  volume s' = v /\
  elements s' =
    match currentAudio s with
    | Some a => alter (with_volume v) a (elements s)
    | None => elements s
    end /\
  demos s' =
    match demoAudio s with
    | Some d => alter (with_gain (v * 0.1)%float) d (demos s)
    | None => demos s
    end /\
  currentAudio s' = currentAudio s /\ demoAudio s' = demoAudio s /\
  isVADMuted s' = isVADMuted s /\ originalVolume s' = originalVolume s /\
  originalGain s' = originalGain s /\ intervals s' = intervals s /\
  vadDuckingFactor s' = vadDuckingFactor s /\
  vadFadeTime s' = vadFadeTime s /\
  currentMusicStyle p' = currentMusicStyle p /\
  isPlaying p' = isPlaying p /\ trackCache p' = trackCache p /\
  freesoundApiKey p' = freesoundApiKey p /\
  snd (adjustVolume delta p) =
    [music_changed (currentMusicStyle p) (isPlaying p) v None].
Proof.
  destruct p as [s style playing key cache].
  destruct s as [vol cur demo muted ov og df ft els ds ivs].
  unfold adjustVolume. play_simpl.
  destruct cur as [a|], demo as [d|]; play_simpl; repeat split.
Qed.

(** What [stopMusic] leaves of the audio system, and what it writes. *)
Lemma stopMusic_fields (p : player) :
  let s := audio p in
  let p' := fst (stopMusic p) in
  let s' := audio p' in
  currentAudio s' = None /\ demoAudio s' = None /\
  isPlaying p' = false /\
  elements s' =
    match currentAudio s with
    | Some a => alter (with_paused true) a (elements s)
    | None => elements s
    end /\
  demos s' =
    match demoAudio s with
    | Some d => alter (with_started false) d (demos s)
    | None => demos s
    end /\
  isVADMuted s' = isVADMuted s /\ originalVolume s' = originalVolume s /\
  originalGain s' = originalGain s /\ intervals s' = intervals s /\
  volume s' = volume s /\ trackCache p' = trackCache p /\
  currentMusicStyle p' = currentMusicStyle p.
Proof.
  destruct p as [s style playing key cache].
  destruct s as [vol cur demo muted ov og df ft els ds ivs].
  unfold stopMusic. play_simpl.
  destruct cur as [a|], demo as [d|]; play_simpl; repeat split.
Qed.

End PlaybackFacts.

Module PlaybackTheorems.

Import AudioSystem Playback Spec Scenario Observations.
Import AudioFacts FloatFacts AudioExtras PlaybackFacts.

#[local] Open Scope nat_scope.

(** X6: a track attached while the system is ducked is faded, when
    speech ends, to the snapshot that was taken from an earlier sink,
    whatever the volume setting it was attached at. *)
Theorem attached_track_restored_to_old_snapshot (s : state) (t : track)
    (played : bool) (g now : float) :
  isVADMuted s = true -> originalVolume s = Some g ->
  truthy_url (audioUrl t) = true ->
  let s1 := playTrack t played s in
  let s2 :=
    fires (replicate steps (List.length (intervals s1)))
      (onSpeechEnded now s1) in
  playing_volume s1 = Some (volume s) /\
  playing_volume s2 = Some g /\ isVADMuted s2 = false /\
  volume s2 = volume s.
Proof.
  intros Hm Ho Hurl s1 s2.
  destruct (playTrack_attaches t played s Hurl)
    as (Ha1 & Hv1 & Hm1 & Ho1 & _ & _ & Hvol & _).
  fold s1 in Ha1, Hv1, Hm1, Ho1, Hvol.
  rewrite Hm in Hm1. rewrite Ho in Ho1.
  destruct (restore_completes now s1 _ g _ Hm1 Ha1 Ho1 Hv1)
    as (Hv2 & Hm2 & Hvol2 & Ha2).
  fold s2 in Hv2, Hm2, Hvol2, Ha2.
  unfold playing_volume. rewrite Ha1, Ha2.
  repeat split; auto. congruence.
Qed.

Lemma attached_track_restored_to_old_snapshot_witness :
  let s := set_volume 0.9 ducked in
  let s1 := playTrack piano true s in
  let s2 :=
    fires (replicate steps (List.length (intervals s1)))
      (onSpeechEnded 3 s1) in
  playing_volume s1 = Some (volume s) /\
  playing_volume s2 = Some 0.5%float /\ isVADMuted s2 = false /\
  volume s2 = volume s.
Proof.
  exact (attached_track_restored_to_old_snapshot (set_volume 0.9 ducked)
           piano true 0.5 3 ltac:(vm_compute; reflexivity)
           ltac:(vm_compute; reflexivity) ltac:(vm_compute; reflexivity)).
Defined.

(** *** Settings *)

(** X7: [setVADDuckingFactor] of a number leaves a factor that is not
    NaN, not below 0.1 and not above 1; a number already in that range is
    kept; a NaN is stored as it is.  No other field changes. *)
Theorem setVADDuckingFactor_clamps (factor : float) (s : state) :
  let s' := setVADDuckingFactor factor s in
  s' = set_vadDuckingFactor (vadDuckingFactor s') s /\
  (PrimFloat.is_nan factor = true ->
   vadDuckingFactor s' = PrimFloat.nan) /\
  (PrimFloat.is_nan factor = false ->
   PrimFloat.is_nan (vadDuckingFactor s') = false /\
   PrimFloat.ltb (vadDuckingFactor s') 0.1 = false /\
   PrimFloat.ltb 1 (vadDuckingFactor s') = false /\
   (PrimFloat.ltb factor 0.1 = false -> PrimFloat.ltb 1 factor = false ->
    PrimFloat.eqb (vadDuckingFactor s') factor = true)).
Proof.
  intros s'.
  assert (Hf : vadDuckingFactor s' =
               JS.Math_max 0.1 (JS.Math_min 1 factor))
    by (subst s'; now destruct s).
  split; [subst s'; now destruct s|]. rewrite Hf. split.
  - intros Hnan. now apply clamp_nan.
  - intros Hnan.
    destruct (clamp_bounds 0.1 1 factor eq_refl eq_refl eq_refl Hnan)
      as (H1 & H2 & H3).
    repeat split; auto. intros Hlo Hhi.
    exact (clamp_in_range 0.1 1 factor eq_refl eq_refl eq_refl eq_refl
             Hnan Hlo Hhi).
Qed.

(** X8: [adjustVolume] sets the volume to the sum of the old volume and
    [delta] brought into the range from 0 to 1 (when the sum is a
    number): 1 when the sum is above 1, the sum itself when it is
    positive and not above 1, and 0 otherwise.  It writes the new volume
    to the track that is playing and a tenth of it to the tone, and
    reports it in one [music-changed] event.  It does so whether or not
    the system is ducked: [isVADMuted], the snapshots and the timers are
    left as they are. *)
Theorem adjustVolume_clamps_and_applies (delta : float) (p : player) :
  PrimFloat.is_nan (volume (audio p) + delta) = false ->
  let s := audio p in
  let sum := (volume s + delta)%float in
  let p' := fst (adjustVolume delta p) in
  let s' := audio p' in
  volume s' =
    (if PrimFloat.ltb 1 sum then 1%float
     else if PrimFloat.ltb 0 sum then sum
     else 0%float) /\
  PrimFloat.is_nan (volume s') = false /\
  PrimFloat.ltb (volume s') 0 = false /\
  PrimFloat.ltb 1 (volume s') = false /\
  playing_volume s' = (fun _ => volume s') <$> playing_volume s /\
  playing_gain s' = (fun _ => (volume s' * 0.1)%float) <$> playing_gain s /\
  snd (adjustVolume delta p) =
    [music_changed (currentMusicStyle p) (isPlaying p) (volume s') None] /\
  isVADMuted s' = isVADMuted s /\ originalVolume s' = originalVolume s /\
  originalGain s' = originalGain s /\ intervals s' = intervals s.
Proof.
  intros Hnan s sum p' s'. subst s sum p' s'.
  pose proof (adjustVolume_fields delta p) as H. cbv zeta in H.
  destruct H as (Hv & He & Hd & Hc & Hdm & Hm & Ho & Hg & Hi & _ & _ & _
                 & _ & _ & _ & Hev).
  destruct (clamp_bounds 0 1 (volume (audio p) + delta)
              eq_refl eq_refl eq_refl Hnan) as (H1 & H2 & H3).
  rewrite <- Hv in H1, H2, H3, Hev.
  split; [rewrite Hv; now apply clamp_unit|].
  split; [exact H1|]. split; [exact H2|]. split; [exact H3|].
  split.
  { unfold playing_volume, volume_of. rewrite Hc, He, Hv.
    destruct (currentAudio (audio p)) as [a|]; [|reflexivity].
    rewrite list_lookup_alter_eq.
    now destruct (elements (audio p) !! a). }
  split.
  { unfold playing_gain, gain_of. rewrite Hdm, Hd, Hv.
    destruct (demoAudio (audio p)) as [d|]; [|reflexivity].
    rewrite list_lookup_alter_eq.
    now destruct (demos (audio p) !! d). }
  auto.
Qed.

Lemma adjustVolume_clamps_and_applies_witness :
  let p := set_audio (playDemoTrack "focus" ducked) Playback.init in
  let p' := fst (adjustVolume 0.7 p) in
  (volume (audio p) + 0.7)%float = 1.2%float /\
  volume (audio p') = 1%float /\
  playing_volume (audio p') = Some 1%float /\
  playing_gain (audio p') = Some (1 * 0.1)%float /\
  snd (adjustVolume 0.7 p) = [music_changed "ambient" false 1 None] /\
  isVADMuted (audio p') = true /\
  originalVolume (audio p') = Some 0.5%float.
Proof.
  cbv zeta.
  pose proof (adjustVolume_clamps_and_applies 0.7
                (set_audio (playDemoTrack "focus" ducked) Playback.init)
                ltac:(vm_compute; reflexivity))
    as (Hv & _ & _ & _ & Hpv & Hpg & Hev & Hm & Ho & _).
  vm_compute in Hv, Hpv, Hpg, Hev, Hm, Ho.
  split; [vm_compute; reflexivity|].
  split; [vm_compute; exact Hv|].
  split; [vm_compute; exact Hpv|].
  split; [vm_compute; exact Hpg|].
  split; [vm_compute; exact Hev|].
  split; [vm_compute; exact Hm|].
  vm_compute; exact Ho.
Defined.

(** X9: a volume change made while the track is ducked is applied to
    the track at once, undoing the duck while [isVADMuted] stays set, and
    is undone when speech ends: after the restore the track is at the
    snapshot taken before the duck, while the volume setting keeps the
    changed value. *)
Theorem adjustVolume_while_ducked_is_lost (delta now : float)
    (p : player) (a : nat) (g : float) :
  let s := audio p in
  isVADMuted s = true -> currentAudio s = Some a ->
  originalVolume s = Some g -> a < List.length (elements s) ->
  let s1 := audio (fst (adjustVolume delta p)) in
  let s2 :=
    fires (replicate steps (List.length (intervals s1)))
      (onSpeechEnded now s1) in
  isVADMuted s1 = true /\ playing_volume s1 = Some (volume s1) /\
  isVADMuted s2 = false /\ playing_volume s2 = Some g /\
  volume s2 = volume s1.
Proof.
  intros s Hm Ha Ho Hlt s1 s2. subst s.
  pose proof (adjustVolume_fields delta p) as H. cbv zeta in H.
  fold s1 in H.
  destruct H as (Hv & He & _ & Hc & _ & Hm1 & Ho1 & _).
  rewrite Ha in He, Hc. rewrite Hm in Hm1. rewrite Ho in Ho1.
  assert (Hv1 : volume_of a s1 = Some (volume s1)).
  { unfold volume_of. rewrite He, Hv, list_lookup_alter_eq.
    destruct (lookup_lt_is_Some_2 _ _ Hlt) as [el ->]. reflexivity. }
  destruct (restore_completes now s1 a g _ Hm1 Hc Ho1 Hv1)
    as (Hv2 & Hm2 & Hvol2 & Ha2).
  fold s2 in Hv2, Hm2, Hvol2, Ha2.
  unfold playing_volume. rewrite Hc, Ha2. auto.
Qed.

Lemma adjustVolume_while_ducked_is_lost_witness :
  let p := set_audio ducked Playback.init in
  let s1 := audio (fst (adjustVolume 0.1 p)) in
  let s2 :=
    fires (replicate steps (List.length (intervals s1)))
      (onSpeechEnded 4 s1) in
  isVADMuted s1 = true /\ playing_volume s1 = Some (volume s1) /\
  isVADMuted s2 = false /\ playing_volume s2 = Some 0.5%float /\
  volume s2 = volume s1.
Proof.
  exact (adjustVolume_while_ducked_is_lost 0.1 4
           (set_audio ducked Playback.init) 0 0.5
           ltac:(vm_compute; reflexivity) ltac:(vm_compute; reflexivity)
           ltac:(vm_compute; reflexivity) ltac:(vm_compute; lia)).
Defined.

(** *** Stop *)

(** X10: [playDemoTrack] does not stop the tone it replaces, and
    [stopMusic] stops only the tone stored last: after a second
    [playDemoTrack] and any number of [stopMusic] calls the first tone is
    as it was, still started, while the second is stopped and
    [demoAudio] is null. *)
Theorem replaced_tone_is_never_stopped (p : player) (st : string)
    (d : nat) (demo : DemoAudio) (n : nat) :
  demoAudio (audio p) = Some d -> demos (audio p) !! d = Some demo ->
  let p1 := set_audio (playDemoTrack st (audio p)) p in
  let p2 := Nat.iter (S n) (fun q => fst (stopMusic q)) p1 in
  demos (audio p2) !! d = Some demo /\
  started <$> demos (audio p2) !! List.length (demos (audio p))
    = Some false /\
  demoAudio (audio p2) = None /\ isPlaying p2 = false.
Proof.
  intros Hd Hdemo p1 p2.
  pose proof (lookup_lt_Some _ _ _ Hdemo) as Hlt.
  assert (H1 : demos (audio (fst (stopMusic p1))) !! d = Some demo /\
               started <$> demos (audio (fst (stopMusic p1)))
                           !! List.length (demos (audio p)) = Some false /\
               demoAudio (audio (fst (stopMusic p1))) = None /\
               isPlaying (fst (stopMusic p1)) = false).
  { pose proof (stopMusic_fields p1) as H. cbv zeta in H.
    destruct H as (_ & Hdn & Hpl & _ & Hds & _).
    pose proof (playDemoTrack_fields st (audio p)) as Hp. cbv zeta in Hp.
    destruct Hp as (_ & _ & _ & _ & Hda & Hdd).
    subst p1. cbn [audio set_audio] in *.
    rewrite Hda, Hdd in Hds. rewrite Hds.
    split; [|split; [|auto]].
    - rewrite list_lookup_alter_ne by lia. now apply lookup_app_l_Some.
    - rewrite list_lookup_alter_eq, list_lookup_middle by reflexivity.
      reflexivity. }
  assert (Hstep : forall q : player,
            demos (audio q) !! d = Some demo /\
            started <$> demos (audio q) !! List.length (demos (audio p))
              = Some false /\
            demoAudio (audio q) = None /\ isPlaying q = false ->
            demos (audio (fst (stopMusic q))) !! d = Some demo /\
            started <$> demos (audio (fst (stopMusic q)))
                        !! List.length (demos (audio p)) = Some false /\
            demoAudio (audio (fst (stopMusic q))) = None /\
            isPlaying (fst (stopMusic q)) = false).
  { intros q (I1 & I2 & I3 & I4).
    pose proof (stopMusic_fields q) as H. cbv zeta in H.
    destruct H as (_ & Hdn & Hpl & _ & Hds & _).
    rewrite I3 in Hds. rewrite Hds. auto. }
  subst p2. induction n as [|n IH]; [exact H1|].
  change (Nat.iter (S (S n)) (fun q => fst (stopMusic q)) p1)
    with (fst (stopMusic (Nat.iter (S n) (fun q => fst (stopMusic q)) p1))).
  apply Hstep, IH.
Qed.

Lemma replaced_tone_is_never_stopped_witness :
  let p := set_audio (playDemoTrack "focus" AudioSystem.init)
             Playback.init in
  let p1 := set_audio (playDemoTrack "piano" (audio p)) p in
  let p2 := Nat.iter 2 (fun q => fst (stopMusic q)) p1 in
  started <$> demos (audio p2) !! 0 = Some true /\
  started <$> demos (audio p2) !! 1 = Some false /\
  demoAudio (audio p2) = None.
Proof.
  pose proof (replaced_tone_is_never_stopped
                (set_audio (playDemoTrack "focus" AudioSystem.init)
                   Playback.init)
                "piano" 0 (mkDemo 40 true (0.5 * 0.1)%float []) 1
                ltac:(vm_compute; reflexivity)
                ltac:(vm_compute; reflexivity)) as H.
  cbv zeta in H. destruct H as (H1 & H2 & H3 & _).
  split; [|split; [exact H2 | exact H3]].
  now rewrite H1.
Defined.

(** *** Search *)

(** X11: the first result of a search is put in the cache under the
    query and the filter, and a later search with the same query and
    filter plays that result again whatever the search service would
    answer, even when the request would fail or the style differs; the
    cache is left as it is.  A result without [previews] is cached all
    the same: the first search plays the demo tone in its place, and the
    later search is rejected. *)
Theorem findAndPlayTrack_caches (q q' : searchQuery) (t : track)
    (others : list track) (response : fetched) (played played' : bool)
    (p : player) :
  trackCache p !! cacheKey q = None ->
  truthy_key (freesoundApiKey p) = true ->
  query q' = query q -> filter q' = filter q ->
  let '(p1, found1) :=
    findAndPlayTrack q (Data (Some (t :: others))) played p in
  let '(p2, found2) := findAndPlayTrack q' response played' p1 in
  found1 =
    Fulfilled (if playTrack_throws t then DemoTone (style q)
               else Found t) /\
  audio p1 =
    (if playTrack_throws t
     then playDemoTrack (style q) (playTrack t played (audio p))
     else playTrack t played (audio p)) /\
  trackCache p1 !! cacheKey q = Some t /\
  found2 =
    (if playTrack_throws t then Rejected else Fulfilled (Found t)) /\
  trackCache p2 = trackCache p1 /\
  audio p2 = playTrack t played' (audio p1).
Proof.
  intros Hmiss Hkey Hq Hf.
  unfold findAndPlayTrack at 1. rewrite Hmiss, Hkey. cbn [negb].
  assert (Hk : cacheKey q' = cacheKey q)
    by (unfold cacheKey; now rewrite Hq, Hf).
  cbv zeta.
  destruct (playTrack_throws t) eqn:Hthrows;
    unfold findAndPlayTrack; cbn [set_audio trackCache audio];
    rewrite Hk, lookup_insert_eq, Hthrows;
    cbn [set_audio trackCache audio]; repeat split.
Qed.

Lemma findAndPlayTrack_caches_witness :
  let q := fallbackInterpretation "heavy rain" in
  let q' := mkQuery (query q) (filter q) "other" "any" in
  let '(p1, found1) :=
    findAndPlayTrack q (Data (Some [rain; piano])) true
      (with_key Playback.init) in
  let '(p2, found2) := findAndPlayTrack q' Threw false p1 in
  found1 = Fulfilled (Found rain) /\
  audio p1 = playTrack rain true AudioSystem.init /\
  trackCache p1 !! cacheKey q = Some rain /\
  found2 = Fulfilled (Found rain) /\ trackCache p2 = trackCache p1 /\
  audio p2 = playTrack rain false (audio p1).
Proof.
  exact (findAndPlayTrack_caches (fallbackInterpretation "heavy rain")
           (mkQuery (query (fallbackInterpretation "heavy rain"))
              (filter (fallbackInterpretation "heavy rain")) "other" "any")
           rain [piano] Threw true false (with_key Playback.init)
           ltac:(vm_compute; reflexivity) ltac:(vm_compute; reflexivity)
           eq_refl eq_refl).
Defined.

(** X12: when the first search result has a [previews] object but no
    usable preview in it, [startBackgroundMusic] stops the track that
    was playing, starts nothing, and still sets [isPlaying] and reports
    the result by name as playing. *)
Theorem track_without_preview_counts_as_playing (requested : string)
    (answer : option searchQuery) (t : track) (others : list track)
    (played : bool) (p : player) :
  trackCache p !! cacheKey (interpretMusicRequest requested answer)
    = None ->
  truthy_key (freesoundApiKey p) = true ->
  playTrack_throws t = false ->
  truthy_url (audioUrl t) = false ->
  let '(p', evs) :=
    startBackgroundMusic requested answer (Data (Some (t :: others)))
      played p in
  isPlaying p' = true /\ currentMusicStyle p' = requested /\
  currentAudio (audio p') = None /\
  demoAudio (audio p') = demoAudio (audio p) /\
  demos (audio p') = demos (audio p) /\
  (forall a el, currentAudio (audio p) = Some a ->
                elements (audio p) !! a = Some el ->
                elements (audio p') !! a = Some (with_paused true el)) /\
  evs = [music_changed requested true (volume (audio p)) (Some (name t))].
Proof.
  intros Hmiss Hkey Hthrows Hurl.
  unfold startBackgroundMusic, findAndPlayTrack.
  cbn [trackCache freesoundApiKey audio currentMusicStyle isPlaying].
  rewrite Hmiss, Hkey, Hthrows.
  cbn [negb audio currentMusicStyle isPlaying freesoundApiKey trackCache
       sound_name].
  destruct (playTrack_without_preview t played (audio p) Hurl)
    as (Hc & _ & Hd & Hds & Hv & Hel).
  rewrite Hv. repeat split; auto.
Qed.

Lemma track_without_preview_counts_as_playing_witness :
  let p := with_key (set_audio (playTrack rain true AudioSystem.init)
                       Playback.init) in
  let '(p', evs) :=
    startBackgroundMusic "piano" None (Data (Some [silent_track])) true p in
  isPlaying p' = true /\ currentMusicStyle p' = "piano"%string /\
  currentAudio (audio p') = None /\
  demoAudio (audio p') = demoAudio (audio p) /\
  demos (audio p') = demos (audio p) /\
  (forall a el, currentAudio (audio p) = Some a ->
                elements (audio p) !! a = Some el ->
                elements (audio p') !! a = Some (with_paused true el)) /\
  evs = [music_changed "piano" true (volume (audio p))
           (Some (name silent_track))].
Proof.
  exact (track_without_preview_counts_as_playing "piano" None
           silent_track [] true
           (with_key (set_audio (playTrack rain true AudioSystem.init)
                        Playback.init))
           ltac:(vm_compute; reflexivity)
           ltac:(vm_compute; reflexivity)
           ltac:(vm_compute; reflexivity)
           ltac:(vm_compute; reflexivity)).
Defined.

(** X15: when the first search result has no [previews] object,
    [startBackgroundMusic] stops the track that was playing, plays the
    demo tone of the interpreted style and reports the tone by name;
    the result stays in the cache, so that the same request made again
    is rejected before anything is played or reported, whatever the
    search service would answer: the call leaves the player as it
    was. *)
Theorem result_without_previews_blocks_request (requested : string)
    (answer : option searchQuery) (t : track) (others : list track)
    (played played' : bool) (response' : fetched) (p : player) :
  trackCache p !! cacheKey (interpretMusicRequest requested answer)
    = None ->
  truthy_key (freesoundApiKey p) = true ->
  playTrack_throws t = true ->
  let q := interpretMusicRequest requested answer in
  let first :=
    startBackgroundMusic requested answer (Data (Some (t :: others)))
      played p in
  let p1 := fst first in
  snd first =
    [music_changed requested true (volume (audio p))
       (Some ("Demo " ++ style q ++ " tone")%string)] /\
  isPlaying p1 = true /\ currentAudio (audio p1) = None /\
  demoAudio (audio p1) = Some (List.length (demos (audio p))) /\
  (forall a el, currentAudio (audio p) = Some a ->
                elements (audio p) !! a = Some el ->
                elements (audio p1) !! a = Some (with_paused true el)) /\
  trackCache p1 !! cacheKey q = Some t /\
  startBackgroundMusic requested answer response' played' p1 = (p1, []).
Proof.
  intros Hmiss Hkey Hthrows q first p1. fold q in Hmiss.
  assert (Hurl : truthy_url (audioUrl t) = false).
  { unfold audioUrl. unfold playTrack_throws in Hthrows.
    now destruct (previews t). }
  destruct (playTrack_without_preview t played (audio p) Hurl)
    as (Hc & _ & Hd & Hds & Hv & Hel).
  assert (Hfirst :
            first =
            (mkPlayer
               (playDemoTrack (style q) (playTrack t played (audio p)))
               requested true (freesoundApiKey p)
               (<[cacheKey q := t]> (trackCache p)),
             [music_changed requested true (volume (audio p))
                (Some ("Demo " ++ style q ++ " tone")%string)])).
  { subst first. unfold startBackgroundMusic, findAndPlayTrack.
    cbn [trackCache freesoundApiKey audio currentMusicStyle isPlaying].
    fold q. rewrite Hmiss, Hkey, Hthrows.
    cbn [negb set_audio audio currentMusicStyle isPlaying freesoundApiKey
         trackCache sound_name].
    pose proof (playDemoTrack_fields (style q)
                  (playTrack t played (audio p))) as Hdemo.
    cbv zeta in Hdemo. destruct Hdemo as (_ & _ & _ & Hvol & _).
    now rewrite Hvol, Hv. }
  subst p1. rewrite Hfirst. cbn [fst snd].
  pose proof (playDemoTrack_fields (style q)
                (playTrack t played (audio p))) as Hdemo.
  cbv zeta in Hdemo.
  destruct Hdemo as (_ & Hcur & Hels & _ & Hdemo & _).
  cbn [audio isPlaying trackCache].
  split; [reflexivity|]. split; [reflexivity|].
  split; [now rewrite Hcur|]. split; [now rewrite Hdemo, Hds|].
  split; [intros a el Ha Hlook; rewrite Hels; now apply Hel|].
  split; [apply lookup_insert_eq|].
  unfold startBackgroundMusic, findAndPlayTrack.
  cbn [trackCache freesoundApiKey audio currentMusicStyle isPlaying].
  fold q. rewrite lookup_insert_eq, Hthrows.
  cbn [set_audio audio currentMusicStyle isPlaying freesoundApiKey
       trackCache].
  assert (Hsame : forall s0 : state,
            currentAudio s0 = None -> playTrack t played' s0 = s0).
  { intros s0 H0. unfold playTrack. rewrite H0.
    destruct (audioUrl t) as [url|]; [|reflexivity].
    now rewrite Hurl. }
  rewrite Hsame by (now rewrite Hcur). reflexivity.
Qed.

Lemma result_without_previews_blocks_request_witness :
  let p := with_key (set_audio (playTrack rain true AudioSystem.init)
                       Playback.init) in
  let first :=
    startBackgroundMusic "piano" None (Data (Some [bare_result; rain]))
      true p in
  snd first =
    [music_changed "piano" true 0.5 (Some "Demo piano tone"%string)] /\
  isPlaying (fst first) = true /\
  currentAudio (audio (fst first)) = None /\
  demoAudio (audio (fst first)) = Some 0 /\
  startBackgroundMusic "piano" None (Data (Some [rain])) true (fst first)
    = (fst first, []).
Proof.
  cbv zeta.
  pose proof (result_without_previews_blocks_request "piano" None
                bare_result [rain] true true (Data (Some [rain]))
                (with_key (set_audio (playTrack rain true AudioSystem.init)
                             Playback.init))
                ltac:(vm_compute; reflexivity)
                ltac:(vm_compute; reflexivity)
                ltac:(vm_compute; reflexivity))
    as (Hev & Hplaying & Hcur & Hdemo & _ & _ & Hagain).
  vm_compute in Hev, Hplaying, Hcur, Hdemo.
  split; [vm_compute; exact Hev|].
  split; [vm_compute; exact Hplaying|].
  split; [vm_compute; exact Hcur|].
  split; [vm_compute; exact Hdemo|].
  exact Hagain.
Defined.

(** X13: whatever the request, the fallback interpretation restricts the
    search to the licence Creative Commons 0, and so does
    [interpretMusicRequest] whenever the main process gives no answer;
    the style is one of rock, metal, ambient, nature, piano and
    focus. *)
Theorem fallbackInterpretation_cc0 (userInput : string) :
  let q := interpretMusicRequest userInput None in
  q = fallbackInterpretation userInput /\
  (exists tags, filter q = (tags ++ cc0)%string) /\
  includes (filter q) cc0 = true /\
  In (style q) ["rock"; "metal"; "ambient"; "nature"; "piano"; "focus"]
    %string.
Proof.
  cbv zeta. cbn [interpretMusicRequest]. split; [reflexivity|].
  unfold fallbackInterpretation.
  repeat match goal with
    | |- context [if ?b then _ else _] =>
        lazymatch b with
        | context [if _ then _ else _] => fail
        | _ => destruct b
        end
    end;
    cbn [filter style];
    (split; [eexists; reflexivity|]);
    (split; [vm_compute; reflexivity|]);
    cbn; tauto.
Qed.

End PlaybackTheorems.

(** ** The application: ducking follows speech *)

Module SessionTheorems.

Import VADFacts AudioFacts PlaybackFacts.








End SessionTheorems.
